(** * Vote submission and duplicate detection of the chili cook-off app

    A shallow embedding of the voting core of [lib/supabase.ts]
    ([ChiliDatabase.submitVote], [validateVote], [updateChiliStats]),
    of [lib/admin-auth.ts] ([AdminAuth]) and of the vote schema of
    [lib/validation.ts], followed by the properties of the vote
    pipeline.

    Conventions.
    - JavaScript numbers that hold counts, ratings and millisecond
      clocks are integers ([Z]); the average rating is an exact rational
      ([Q]), so [Math.round (x * 10) / 10] is computed without the
      rounding error of binary doubles.
    - An [async] function is a state transformer over a [World] (the two
      tables, the admin slot of [localStorage], the console and the
      trace of requests sent to the persistence layer) that either
      returns a value or throws.
    - The persistence client is outside the repository.  Its requests
      are modelled by what the code relies on: a request resolves to a
      response [{ data, error }] or rejects (throws); which of the two
      happens on a failure is chosen by the environment ([fault]).
    - The other operations of [ChiliDatabase], the voter's session of
      [lib/session.ts], the page of [app/vote/page.tsx], the entry
      codes of [lib/entry-codes.ts] and the functions on plain text of
      [lib/text-normalization.ts] and [lib/sanitization.ts] follow the
      voting core.  There a string is the list of its UTF-16 code
      units, and the trace of requests keeps to the requests of the
      vote pipeline. *)

From Stdlib Require Import ZArith QArith Qround Lqa List String Bool Lia.
From Stdlib Require Import NArith Ascii DecimalString.
Local Open Scope string_scope.
Import ListNotations.
Local Open Scope list_scope.
Local Open Scope Z_scope.

(** ** JavaScript values used by the voting core *)

Module Js.

(** A thrown value: [instanceof_Error] tells whether the
    [error instanceof Error] test of a [catch] block succeeds. *)
Record Thrown : Type := mkThrown {
  instanceof_Error : bool;
  message : string
}.

(** [new Error(msg)] *)
Definition new_Error (msg : string) : Thrown :=
  {| instanceof_Error := true; message := msg |}.

(** Truthiness of an optional string: [undefined], [null] and the
    empty string are falsy. *)
Definition truthy (s : option string) : bool :=
  match s with
  | Some x => negb (String.eqb x "")
  | None => false
  end.

(** [s || null] *)
Definition or_null (s : option string) : option string :=
  if truthy s then s else None.

(** [s || dflt] *)
Definition or_else (s : option string) (dflt : string) : string :=
  match s with
  | Some x => if String.eqb x "" then dflt else x
  | None => dflt
  end.

(** [Math.round]: the nearest integer, halves towards plus infinity. *)
Definition Math_round (x : Q) : Z := Qfloor (x + (1 # 2))%Q.

Definition is_some {A : Type} (o : option A) : bool :=
  match o with Some _ => true | None => false end.

End Js.

(** ** The persistence layer: tables, requests and their failures *)

Module Supabase.
Import Js.

(** A row of table [votes].  The generated [id] column is left out: the
    core selects it only to test whether a row exists. *)
Record VoteRow : Type := mkVoteRow {
  chili_id : string;
  session_id : string;
  device_fingerprint : option string;
  ip_address : option string;
  overall_rating : Z;
  taste_rating : Z;
  presentation_rating : Z;
  creativity_rating : Z;
  spice_balance_rating : Z;
  comments_col : option string;
  created_at : Z
}.

(** A row of table [chili_entries], restricted to the key and the three
    aggregate columns written by the voting core. *)
Record ChiliEntry : Type := mkChiliEntry {
  id : string;
  vote_count : Z;
  total_score : Z;
  average_rating : Q
}.

(** The item stored under [ADMIN_SESSION_KEY]: text on which
    [JSON.parse] throws, or a parsed [AdminSession]. *)
Inductive StoredItem : Type :=
| Unparsable
| SessionJson (authenticated : bool) (expires : Z).

(** The requests the voting core sends. *)
Inductive Request : Type :=
| SessionLookup
| FingerprintLookup
| IpLookup
| InsertVote
| SelectRatings
| UpdateEntry.

Definition Request_eqb (a b : Request) : bool :=
  match a, b with
  | SessionLookup, SessionLookup
  | FingerprintLookup, FingerprintLookup
  | IpLookup, IpLookup
  | InsertVote, InsertVote
  | SelectRatings, SelectRatings
  | UpdateEntry, UpdateEntry => true
  | _, _ => false
  end.

(** What happens to a request: it is served, it resolves with
    [{ data: null, error }] (the form the code tests with
    [if (voteError)] and [if (votesError)]), or the awaited promise
    rejects. *)
Inductive Fault : Type :=
| Healthy
| ErrorResult (e : Thrown)
| Rejected (e : Thrown).

Record Env : Type := mkEnv {
  window_defined : bool;        (* typeof window !== 'undefined' *)
  now : Z;                      (* Date.now(), milliseconds *)
  db_now : Z;                   (* the database default of created_at *)
  fault : Request -> Fault
}.

Record World : Type := mkWorld {
  votes : list VoteRow;
  chili_entries : list ChiliEntry;
  admin_session : option StoredItem;
  console : list string;
  requests : list Request
}.

Definition set_votes (vs : list VoteRow) (w : World) : World :=
  {| votes := vs; chili_entries := chili_entries w;
     admin_session := admin_session w; console := console w;
     requests := requests w |}.

Definition set_chili_entries (es : list ChiliEntry) (w : World) : World :=
  {| votes := votes w; chili_entries := es;
     admin_session := admin_session w; console := console w;
     requests := requests w |}.

Definition set_admin_session (s : option StoredItem) (w : World) : World :=
  {| votes := votes w; chili_entries := chili_entries w;
     admin_session := s; console := console w;
     requests := requests w |}.

Definition log_console (msg : string) (w : World) : World :=
  {| votes := votes w; chili_entries := chili_entries w;
     admin_session := admin_session w; console := console w ++ [msg];
     requests := requests w |}.

Definition log_request (r : Request) (w : World) : World :=
  {| votes := votes w; chili_entries := chili_entries w;
     admin_session := admin_session w; console := console w;
     requests := requests w ++ [r] |}.

(** *** Asynchronous computations *)

Inductive Outcome (A : Type) : Type :=
| Returns (a : A)
| Throws (e : Thrown).
Arguments Returns {A} a.
Arguments Throws {A} e.

Definition Async (A : Type) : Type := World -> Outcome A * World.

Definition ret {A : Type} (a : A) : Async A := fun w => (Returns a, w).

Definition throw {A : Type} (e : Thrown) : Async A :=
  fun w => (Throws e, w).

Definition bind {A B : Type} (m : Async A) (k : A -> Async B) : Async B :=
  fun w =>
    match m w with
    | (Returns a, w1) => k a w1
    | (Throws e, w1) => (Throws e, w1)
    end.

(** [try { body } catch (error) { handler error }] *)
Definition try_catch {A : Type} (body : Async A)
    (handler : Thrown -> Async A) : Async A :=
  fun w =>
    match body w with
    | (Returns a, w1) => (Returns a, w1)
    | (Throws e, w1) => handler e w1
    end.

(** [console.error(msg, ...)] *)
Definition console_error (msg : string) : Async unit :=
  fun w => (Returns tt, log_console msg w).

(** *** Responses *)

Record Response (A : Type) : Type := mkResponse {
  data : option A;
  error : option Thrown
}.
Arguments mkResponse {A} data error.
Arguments data {A} r.
Arguments error {A} r.

(** [await <request>]: the request is recorded, then served on the
    tables or failed as the environment decides.  A failed request
    leaves the tables as they are. *)
Definition await_request {A : Type} (env : Env) (r : Request)
    (serve : World -> Response A * World) : Async (Response A) :=
  fun w =>
    let w1 := log_request r w in
    match fault env r with
    | Healthy => let (resp, w2) := serve w1 in (Returns resp, w2)
    | ErrorResult e => (Returns (mkResponse None (Some e)), w1)
    | Rejected e => (Throws e, w1)
    end.

(** The error a [.maybeSingle()] read reports on several rows. *)
Definition several_rows : Thrown :=
  {| instanceof_Error := false; message := "multiple rows returned" |}.

(** [.maybeSingle()], by the contract of the client library (the result
    must be zero or one row, otherwise an error is returned): the row
    when the filter selects exactly one, no data when it selects none,
    and an error without data when it selects several. *)
Definition maybeSingle {A : Type} (rows : list A) : Response A :=
  match rows with
  | [] => mkResponse None None
  | [row] => mkResponse (Some row) None
  | _ :: _ :: _ => mkResponse None (Some several_rows)
  end.

(** [.eq(column, value)] on a nullable text column: a [NULL] never
    equals a value. *)
Definition eq_col (col : option string) (value : string) : bool :=
  match col with
  | Some x => String.eqb x value
  | None => false
  end.

End Supabase.

Declare Scope async_scope.
Delimit Scope async_scope with async.
Notation "x <- c ;; k" := (Supabase.bind c (fun x => k))
  (at level 61, c at next level, right associativity) : async_scope.
Notation "c ;;; k" := (Supabase.bind c (fun _ => k))
  (at level 61, right associativity) : async_scope.

(** ** [lib/admin-auth.ts] *)

Module AdminAuth.
Import Js Supabase.
Local Open Scope async_scope.

(** [SESSION_DURATION = 24 * 60 * 60 * 1000], 24 hours *)
Definition SESSION_DURATION : Z := 24 * 60 * 60 * 1000.

Definition createSession (env : Env) : Async unit :=
  fun w =>
    if negb (window_defined env) then (Returns tt, w)
    else (Returns tt,
          set_admin_session
            (Some (SessionJson true (now env + SESSION_DURATION))) w).

Definition clearSession (env : Env) : Async unit :=
  fun w =>
    if negb (window_defined env) then (Returns tt, w)
    else (Returns tt, set_admin_session None w).

(** [JSON.parse(sessionData)] *)
Definition JSON_parse (item : StoredItem) : Async (bool * Z) :=
  match item with
  | Unparsable =>
      throw {| instanceof_Error := true; message := "SyntaxError" |}
  | SessionJson authenticated expires => ret (authenticated, expires)
  end.

Definition isAuthenticated (env : Env) : Async bool :=
  fun w =>
    if negb (window_defined env) then (Returns false, w)
    else
      try_catch
        (fun w0 =>
           match admin_session w0 with
           | None => (Returns false, w0)
           | Some sessionData =>
               (session <- JSON_parse sessionData ;;
                if snd session <? now env
                then (clearSession env ;;; ret false)
                else ret (fst session)) w0
           end)
        (fun _ => console_error "Error checking admin session:" ;;;
                  ret false)
        w.

End AdminAuth.

(** ** [lib/supabase.ts]: class [ChiliDatabase] *)

Module ChiliDatabase.
Import Js Supabase.
Local Open Scope async_scope.

Record CategoryRatings : Type := mkCategoryRatings {
  taste : Z;
  presentation : Z;
  creativity : Z;
  spiceBalance : Z
}.

(** The argument of [submitVote]:
    [VoteSubmission & { sessionId; deviceFingerprint?; ipAddress? }]. *)
Record VoteSubmission : Type := mkVoteSubmission {
  chiliId : string;
  sessionId : string;
  deviceFingerprint : option string;
  ipAddress : option string;
  overallRating : Z;
  categoryRatings : CategoryRatings;
  comments : option string
}.

(** The result of [validateVote]: [{ allowed; reason? }]. *)
Record Validation : Type := mkValidation {
  allowed : bool;
  reason : option string
}.

Definition already_voted : string :=
  "You have already voted for this chili".
Definition device_voted : string :=
  "This device has already voted for this chili".
Definition network_voted : string :=
  "Multiple votes detected from this network. Please wait a few minutes.".

(** The rows selected by each duplicate check. *)
Definition session_rows (chiliId sessionId : string)
    (vs : list VoteRow) : list VoteRow :=
  filter (fun v => String.eqb (session_id v) sessionId
                   && String.eqb (chili_id v) chiliId) vs.

Definition fingerprint_rows (chiliId deviceFingerprint : string)
    (vs : list VoteRow) : list VoteRow :=
  filter (fun v => eq_col (device_fingerprint v) deviceFingerprint
                   && String.eqb (chili_id v) chiliId) vs.

Definition ip_rows (chiliId ipAddress : string) (fiveMinutesAgo : Z)
    (vs : list VoteRow) : list VoteRow :=
  filter (fun v => eq_col (ip_address v) ipAddress
                   && String.eqb (chili_id v) chiliId
                   && (fiveMinutesAgo <=? created_at v)) vs.

Definition read_only {A : Type} (f : list VoteRow -> Response A)
    (w : World) : Response A * World :=
  (f (votes w), w).

Definition validateVote (env : Env) (chiliId sessionId : string)
    (deviceFingerprint : string) (ipAddress : option string)
    : Async Validation :=
  try_catch
    ((* Check 1: Session ID *)
     sessionVote <- await_request env SessionLookup
       (read_only (fun vs =>
          maybeSingle (session_rows chiliId sessionId vs))) ;;
     if is_some (data sessionVote)
     then ret (mkValidation false (Some already_voted))
     else
     (* Check 2: Device Fingerprint *)
     fingerprintVote <- await_request env FingerprintLookup
       (read_only (fun vs =>
          maybeSingle (fingerprint_rows chiliId deviceFingerprint vs))) ;;
     if is_some (data fingerprintVote)
     then ret (mkValidation false (Some device_voted))
     else
     (* Check 3: IP Address, votes within 5 minutes *)
     match ipAddress with
     | Some ip =>
         if truthy ipAddress then
           let fiveMinutesAgo := now env - 5 * 60 * 1000 in
           recentIPVote <- await_request env IpLookup
             (read_only (fun vs =>
                maybeSingle (ip_rows chiliId ip fiveMinutesAgo vs))) ;;
           if is_some (data recentIPVote)
           then ret (mkValidation false (Some network_voted))
           else ret (mkValidation true None)
         else ret (mkValidation true None)
     | None => ret (mkValidation true None)
     end)
    (fun _ =>
       console_error "Error validating vote:" ;;;
       (* On validation error, allow the vote (fail open) *)
       ret (mkValidation true None)).

(** [votes.reduce((sum, vote) => sum + vote.overall_rating, 0)] *)
Definition sum_ratings (ratings : list Z) : Z :=
  fold_left (fun sum r => sum + r) ratings 0.

Definition votes_of (chiliId : string) (vs : list VoteRow)
    : list VoteRow :=
  filter (fun v => String.eqb (chili_id v) chiliId) vs.

(** [Math.round(averageRating * 10) / 10] *)
Definition round_one_decimal (averageRating : Q) : Q :=
  (inject_Z (Math_round (averageRating * inject_Z 10)) / inject_Z 10)%Q.

(** [.update({ vote_count, total_score, average_rating }).eq('id', chiliId)] *)
Definition update_entries (chiliId : string) (count total : Z)
    (average : Q) (es : list ChiliEntry) : list ChiliEntry :=
  map (fun e =>
         if String.eqb (id e) chiliId
         then {| id := id e; vote_count := count; total_score := total;
                 average_rating := average |}
         else e) es.

Definition updateChiliStats (env : Env) (chiliId : string) : Async unit :=
  try_catch
    (selected <- await_request env SelectRatings
       (read_only (fun vs =>
          mkResponse (Some (map overall_rating (votes_of chiliId vs)))
                     None)) ;;
     match error selected with
     | Some votesError => throw votesError
     | None =>
         match data selected with
         | Some ratings =>
             if (0 <? Z.of_nat (List.length ratings)) then
               let totalScore := sum_ratings ratings in
               let averageRating :=
                 (inject_Z totalScore
                  / inject_Z (Z.of_nat (List.length ratings)))%Q in
               updated <- await_request env UpdateEntry
                 (fun w =>
                    (@mkResponse unit None None,
                     set_chili_entries
                       (update_entries chiliId
                          (Z.of_nat (List.length ratings)) totalScore
                          (round_one_decimal averageRating)
                          (chili_entries w)) w)) ;;
               match error updated with
               | Some updateError => throw updateError
               | None => ret tt
               end
             else ret tt
         | None => ret tt
         end
     end)
    (fun _ =>
       (* Don't throw here - vote was successful *)
       console_error "Error updating chili stats:").

(** The row written by [.insert({ ... })]; [created_at] is filled in by
    the database. *)
Definition vote_row (env : Env) (vote : VoteSubmission) : VoteRow :=
  {| chili_id := chiliId vote;
     session_id := sessionId vote;
     device_fingerprint := or_null (deviceFingerprint vote);
     ip_address := or_null (ipAddress vote);
     overall_rating := overallRating vote;
     taste_rating := taste (categoryRatings vote);
     presentation_rating := presentation (categoryRatings vote);
     creativity_rating := creativity (categoryRatings vote);
     spice_balance_rating := spiceBalance (categoryRatings vote);
     comments_col := or_null (comments vote);
     created_at := db_now env |}.

Definition submitVote (env : Env) (vote : VoteSubmission) : Async unit :=
  try_catch
    ((* Admin bypass: skip validation for authenticated admins *)
     isAdmin <- AdminAuth.isAuthenticated env ;;
     (match deviceFingerprint vote with
      | Some fp =>
          if negb isAdmin && truthy (deviceFingerprint vote) then
            validation <- validateVote env (chiliId vote)
                            (sessionId vote) fp (ipAddress vote) ;;
            if negb (allowed validation)
            then throw (new_Error (or_else (reason validation)
                                           "Duplicate vote detected"))
            else ret tt
          else ret tt
      | None => ret tt
      end) ;;;
     (* Insert the vote *)
     inserted <- await_request env InsertVote
       (fun w =>
          (@mkResponse unit None None,
           set_votes (votes w ++ [vote_row env vote]) w)) ;;
     match error inserted with
     | Some voteError => throw voteError
     | None =>
         (* Update chili statistics *)
         updateChiliStats env (chiliId vote)
     end)
    (fun error =>
       console_error "Error submitting vote:" ;;;
       if instanceof_Error error then throw error
       else throw (new_Error "Failed to submit vote")).

End ChiliDatabase.

(** ** [lib/validation.ts]: the vote submission schema *)

Module Validation.
Import Js Supabase ChiliDatabase.

(** An entry of [result.error.issues]: the path of the field and the
    message the schema gives for it ([None] where the schema leaves the
    message to the library). *)
Record Issue : Type := mkIssue {
  field : string;
  issue_message : option string
}.

Section Schemas.

(** [z.string().uuid()] belongs to the schema library. *)
Variable is_uuid : string -> bool.
(** [detectMaliciousContent] tests a list of regular expressions. *)
Variable detectMaliciousContent : string -> bool.

Definition noMaliciousContent (value : string) : bool :=
  if detectMaliciousContent value then false else true.

(** [z.number().int(..).min(1, ..).max(5, ..)] at [path]; a rating is an
    integer here, so [.int] holds. *)
Definition rating_issues (path : string) (low high : option string)
    (r : Z) : list Issue :=
  (if r <? 1 then [mkIssue path low] else [])
  ++ (if 5 <? r then [mkIssue path high] else []).

Definition comments_ok (c : option string) : bool :=
  match c with
  | None => true
  | Some s =>
      ((Z.of_nat (String.length s) <=? 500) && noMaliciousContent s)
      || String.eqb s ""
  end.

Definition voteSubmissionSchema (v : VoteSubmission) : list Issue :=
  (if is_uuid (chiliId v) then []
   else [mkIssue "chiliId" (Some "Invalid chili ID format")])
  ++ rating_issues "overallRating"
       (Some "Rating must be at least 1")
       (Some "Rating must not exceed 5") (overallRating v)
  ++ rating_issues "categoryRatings.taste" None None
       (taste (categoryRatings v))
  ++ rating_issues "categoryRatings.presentation" None None
       (presentation (categoryRatings v))
  ++ rating_issues "categoryRatings.creativity" None None
       (creativity (categoryRatings v))
  ++ rating_issues "categoryRatings.spiceBalance" None None
       (spiceBalance (categoryRatings v))
  ++ (if comments_ok (comments v) then []
      else [mkIssue "comments" None])
  ++ (if 1 <=? Z.of_nat (String.length (sessionId v)) then []
      else [mkIssue "sessionId" (Some "Session ID is required")]).

(** [validateOrThrow(schema, data)] *)
Definition validateOrThrow {A : Type} (schema : A -> list Issue)
    (data : A) : Async A :=
  match schema data with
  | [] => ret data
  | _ :: _ => throw (new_Error "Validation failed")
  end.

(** [validateSafe(schema, data)] *)
Definition validateSafe {A : Type} (schema : A -> list Issue)
    (data : A) : list Issue + A :=
  match schema data with
  | [] => inr data
  | errors => inl errors
  end.

End Schemas.

End Validation.

(** ** [lib/supabase.ts]: the other operations of class [ChiliDatabase] *)

Module ChiliDatabaseOps.
Import Js Supabase ChiliDatabase.
Local Open Scope async_scope.

(** The error object of a response, with the [code] that [hasVoted]
    reads. *)
Record ApiError : Type := mkApiError {
  code : string;
  thrown : Thrown
}.

Record CodedResponse (A : Type) : Type := mkCodedResponse {
  coded_data : option A;
  coded_error : option ApiError
}.
Arguments mkCodedResponse {A} coded_data coded_error.
Arguments coded_data {A} c.
Arguments coded_error {A} c.

(** What happens to a read whose error code matters. *)
Inductive ReadFault : Type :=
| ReadServed
| ReadError (e : ApiError)
| ReadRejected (e : Thrown).

Definition no_single_row : ApiError :=
  {| code := "PGRST116";
     thrown := {| instanceof_Error := false;
                  message := "no single row" |} |}.

(** [.single()], by the contract of the client library: the row when
    the filter selects exactly one, else no data and the error with code
    PGRST116. *)
Definition single {A : Type} (rows : list A) : CodedResponse A :=
  match rows with
  | [row] => mkCodedResponse (Some row) None
  | _ => mkCodedResponse None (Some no_single_row)
  end.

Definition await_read {A : Type} (f : ReadFault)
    (serve : World -> CodedResponse A) : Async (CodedResponse A) :=
  fun w =>
    match f with
    | ReadServed => (Returns (serve w), w)
    | ReadError e => (Returns (mkCodedResponse None (Some e)), w)
    | ReadRejected e => (Throws e, w)
    end.

Definition hasVoted (f : ReadFault) (sessionId chiliId : string)
    : Async bool :=
  try_catch
    (response <- await_read f
       (fun w => single (session_rows chiliId sessionId (votes w))) ;;
     match coded_error response with
     | Some error =>
         if negb (String.eqb (code error) "PGRST116")
         then throw (thrown error)
         else ret (is_some (coded_data response))
     | None => ret (is_some (coded_data response))
     end)
    (fun _ =>
       console_error "Error checking vote status:" ;;;
       (* Default to allowing vote if check fails *)
       ret false).

(** [{ totalEntries; totalVotes; averageVotesPerEntry }] *)
Record VotingStats : Type := mkVotingStats {
  totalEntries : Z;
  totalVotes : Z;
  averageVotesPerEntry : Q
}.

(** [.select('id', { count: 'exact' })]: the [count] of the response,
    [null] when the request resolves with an error. *)
Definition await_count (f : Fault) (rows : World -> nat)
    : Async (option Z) :=
  fun w =>
    match f with
    | Healthy => (Returns (Some (Z.of_nat (rows w))), w)
    | ErrorResult _ => (Returns None, w)
    | Rejected e => (Throws e, w)
    end.

(** [count || 0] *)
Definition count_or_zero (count : option Z) : Z :=
  match count with
  | Some n => n
  | None => 0
  end.

(** [Promise.all([a, b])]: both requests are sent; the result is the
    pair of their responses, or a rejection when one of them rejects. *)
Definition Promise_all {A B : Type} (a : Async A) (b : Async B)
    : Async (A * B) :=
  fun w =>
    match a w with
    | (Returns x, w1) =>
        match b w1 with
        | (Returns y, w2) => (Returns (x, y), w2)
        | (Throws e, w2) => (Throws e, w2)
        end
    | (Throws e, w1) =>
        match b w1 with
        | (_, w2) => (Throws e, w2)
        end
    end.

Definition getVotingStats (entries_fault votes_fault : Fault)
    : Async VotingStats :=
  try_catch
    (results <- Promise_all
       (await_count entries_fault
          (fun w => List.length (chili_entries w)))
       (await_count votes_fault (fun w => List.length (votes w))) ;;
     let totalEntries := count_or_zero (fst results) in
     let totalVotes := count_or_zero (snd results) in
     let averageVotesPerEntry :=
       if 0 <? totalEntries
       then (inject_Z totalVotes / inject_Z totalEntries)%Q
       else 0%Q in
     ret {| totalEntries := totalEntries;
            totalVotes := totalVotes;
            averageVotesPerEntry := round_one_decimal averageVotesPerEntry |})
    (fun _ =>
       console_error "Error fetching voting stats:" ;;;
       ret {| totalEntries := 0; totalVotes := 0;
              averageVotesPerEntry := 0%Q |}).

Section Deletion.

(** What the database does to the votes that refer to deleted entries:
    the action of the foreign key, declared in the schema. *)
Variable votes_after_delete : list string -> list VoteRow -> list VoteRow.

(** [.delete().in('id', ids)] on table [chili_entries] *)
Definition delete_rows (ids : list string) (w : World) : World :=
  set_votes (votes_after_delete ids (votes w))
    (set_chili_entries
       (filter (fun e => negb (existsb (String.eqb (id e)) ids))
          (chili_entries w)) w).

Definition await_delete (f : Fault) (ids : list string)
    : Async (Response unit) :=
  fun w =>
    match f with
    | Healthy => (Returns (@mkResponse unit None None), delete_rows ids w)
    | ErrorResult e => (Returns (mkResponse None (Some e)), w)
    | Rejected e => (Throws e, w)
    end.

Definition deleteChiliEntry (f : Fault) (id : string) : Async unit :=
  try_catch
    (response <- await_delete f [id] ;;
     match error response with
     | Some error => throw error
     | None => ret tt
     end)
    (fun _ =>
       console_error "Error deleting chili entry:" ;;;
       throw (new_Error "Failed to delete chili entry")).

Definition bulkDeleteChiliEntries (f : Fault) (ids : list string)
    : Async unit :=
  try_catch
    (response <- await_delete f ids ;;
     match error response with
     | Some error => throw error
     | None => ret tt
     end)
    (fun _ =>
       console_error "Error bulk deleting chili entries:" ;;;
       throw (new_Error "Failed to bulk delete chili entries")).

End Deletion.

End ChiliDatabaseOps.

(** [ChiliDatabase.getChiliEntries] *)
Module ChiliDatabaseReads.
Import Js Supabase ChiliDatabase.
Local Open Scope async_scope.

Section Reads.

(** [.order('average_rating', { ascending: false })]: the order the
    database gives to the rows. *)
Variable order_by_average_rating : list ChiliEntry -> list ChiliEntry.

Definition await_entries (f : Fault)
    : Async (Response (list ChiliEntry)) :=
  fun w =>
    match f with
    | Healthy =>
        (Returns (mkResponse
                    (Some (order_by_average_rating (chili_entries w)))
                    None), w)
    | ErrorResult e => (Returns (mkResponse None (Some e)), w)
    | Rejected e => (Throws e, w)
    end.

Definition getChiliEntries (f : Fault) : Async (list ChiliEntry) :=
  response <- await_entries f ;;
  match error response with
  | Some _ =>
      console_error "Error fetching chili entries:" ;;;
      throw (new_Error "Failed to fetch chili entries")
  | None =>
      ret (match data response with Some rows => rows | None => [] end)
  end.

End Reads.

End ChiliDatabaseReads.

(** ** [lib/session.ts] *)

Module SessionManager.
Import Js Supabase.

(** What [JSON.parse] makes of the item [voted_chilis]: the array of
    ids that this class writes, or a text on which [JSON.parse] or the
    call of [includes] throws.  (An item with the empty text reads as
    no item; arrays with other elements than strings are left out.) *)
Inductive StoredVoted : Type :=
| Unreadable (e : Thrown)
| VotedArray (ids : list string).

(** The two items of [localStorage] that the class uses. *)
Record LocalStorage : Type := mkLocalStorage {
  chili_voter_session : option string;
  voted_chilis : option StoredVoted
}.

(** [`${n}`] for an integer *)
Definition Number_toString (n : Z) : string :=
  NilZero.string_of_int (Z.to_int n).

(** [random_part] is [Math.random().toString(36).substr(2, 9)]. *)
Definition getSessionId (env : Env) (random_part : string)
    (ls : LocalStorage) : string * LocalStorage :=
  if negb (window_defined env)
  then (("server_session_" ++ Number_toString (now env))%string, ls)
  else
    let sessionId := chili_voter_session ls in
    if negb (truthy sessionId) then
      let sessionId :=
        ("session_" ++ Number_toString (now env) ++ "_"
         ++ random_part)%string in
      (sessionId,
       {| chili_voter_session := Some sessionId;
          voted_chilis := voted_chilis ls |})
    else (or_else sessionId "", ls).

(** [JSON.parse(localStorage.getItem(this.VOTED_KEY) || '[]')] *)
Definition parse_voted (ls : LocalStorage) : Outcome (list string) :=
  match voted_chilis ls with
  | None => Returns []
  | Some (VotedArray ids) => Returns ids
  | Some (Unreadable e) => Throws e
  end.

(** [voted.includes(chiliId)] *)
Definition includes (voted : list string) (chiliId : string) : bool :=
  existsb (String.eqb chiliId) voted.

Definition hasVoted (env : Env) (chiliId : string) (ls : LocalStorage)
    : Outcome bool :=
  if negb (window_defined env) then Returns false
  else match parse_voted ls with
       | Returns voted => Returns (includes voted chiliId)
       | Throws e => Throws e
       end.

Definition markAsVoted (env : Env) (chiliId : string) (ls : LocalStorage)
    : Outcome unit * LocalStorage :=
  if negb (window_defined env) then (Returns tt, ls)
  else match parse_voted ls with
       | Returns voted =>
           if negb (includes voted chiliId)
           then (Returns tt,
                 {| chili_voter_session := chili_voter_session ls;
                    voted_chilis :=
                      Some (VotedArray (voted ++ [chiliId])) |})
           else (Returns tt, ls)
       | Throws e => (Throws e, ls)
       end.

Definition getVotedChilis (env : Env) (ls : LocalStorage)
    : Outcome (list string) :=
  if negb (window_defined env) then Returns [] else parse_voted ls.

Definition clearSession (env : Env) (ls : LocalStorage) : LocalStorage :=
  if negb (window_defined env) then ls
  else {| chili_voter_session := None; voted_chilis := None |}.

End SessionManager.

(** ** [app/vote/page.tsx]: the page behind the QR codes *)

Module VotePage.
Import Js Supabase.
Local Open Scope async_scope.

(** The state [voteData] of the form. *)
Record VoteData : Type := mkVoteData {
  overallRating : Z;
  taste : Z;
  presentation : Z;
  creativity : Z;
  spiceBalance : Z;
  comments : string
}.

(** The state of the page that the two handlers read and write, with
    the texts shown by [alert] and the local storage of the browser.
    The flags [loading] and [voting] and the redirections are left
    out. *)
Record Page : Type := mkPage {
  chili : option ChiliEntry;
  error : option string;
  alerts : list string;
  storage : SessionManager.LocalStorage
}.

Definition initial (ls : SessionManager.LocalStorage) : Page :=
  {| chili := None; error := None; alerts := []; storage := ls |}.

Definition setChili (c : ChiliEntry) (p : Page) : Page :=
  {| chili := Some c; error := error p; alerts := alerts p;
     storage := storage p |}.

Definition setError (msg : string) (p : Page) : Page :=
  {| chili := chili p; error := Some msg; alerts := alerts p;
     storage := storage p |}.

Definition alert (msg : string) (p : Page) : Page :=
  {| chili := chili p; error := error p; alerts := alerts p ++ [msg];
     storage := storage p |}.

Definition set_storage (ls : SessionManager.LocalStorage) (p : Page)
    : Page :=
  {| chili := chili p; error := error p; alerts := alerts p;
     storage := ls |}.

Definition rate_all : string :=
  "Please rate all categories before submitting.".
Definition vote_submitted : string :=
  "Vote submitted successfully! Thank you for voting!".
Definition vote_failed : string :=
  "Failed to submit vote. Please try again.".
Definition already_voted_here : string :=
  "You have already voted for this chili!".

Section Handlers.

Variable order_by_average_rating : list ChiliEntry -> list ChiliEntry.

(** [chiliId] is [searchParams.get('chili')]. *)
Definition loadChili (env : Env) (f : Fault) (chiliId : option string)
    (p : Page) : Async Page :=
  match chiliId with
  | Some cid =>
      if negb (truthy chiliId)
      then ret (setError "No chili ID provided. Redirecting to home..." p)
      else
        try_catch
          (allChilis <- ChiliDatabaseReads.getChiliEntries
                          order_by_average_rating f ;;
           match find (fun c => String.eqb (id c) cid) allChilis with
           | None =>
               ret (setError "Chili not found. Redirecting to home..." p)
           | Some targetChili =>
               (* Check if user already voted for this chili *)
               match SessionManager.hasVoted env cid (storage p) with
               | Returns true => ret (setError already_voted_here p)
               | Returns false => ret (setChili targetChili p)
               | Throws e => throw e
               end
           end)
          (fun _ =>
             console_error "Error loading chili:" ;;;
             ret (setError
                    "Failed to load chili entry. Please try again." p))
  | None => ret (setError "No chili ID provided. Redirecting to home..." p)
  end.

End Handlers.

(** The submission that the page builds: no [deviceFingerprint], no
    [ipAddress]. *)
Definition submission (c : ChiliEntry) (sessionId : string)
    (voteData : VoteData) : ChiliDatabase.VoteSubmission :=
  {| ChiliDatabase.chiliId := id c;
     ChiliDatabase.sessionId := sessionId;
     ChiliDatabase.deviceFingerprint := None;
     ChiliDatabase.ipAddress := None;
     ChiliDatabase.overallRating := overallRating voteData;
     ChiliDatabase.categoryRatings :=
       {| ChiliDatabase.taste := taste voteData;
          ChiliDatabase.presentation := presentation voteData;
          ChiliDatabase.creativity := creativity voteData;
          ChiliDatabase.spiceBalance := spiceBalance voteData |};
     ChiliDatabase.comments := Some (comments voteData) |}.

Definition unrated (voteData : VoteData) : bool :=
  (overallRating voteData =? 0) || (taste voteData =? 0)
  || (presentation voteData =? 0) || (creativity voteData =? 0)
  || (spiceBalance voteData =? 0).

(** The handler [submitVote] of the page. *)
Definition submitVote (env : Env) (random_part : string)
    (voteData : VoteData) (p : Page) : Async Page :=
  match chili p with
  | None => ret p
  | Some c =>
      (* Validate all ratings are filled *)
      if unrated voteData then ret (alert rate_all p)
      else
        let session := SessionManager.getSessionId env random_part
                         (storage p) in
        let p1 := set_storage (snd session) p in
        try_catch
          (ChiliDatabase.submitVote env
             (submission c (fst session) voteData) ;;;
           match SessionManager.markAsVoted env (id c) (storage p1) with
           | (Returns _, ls) =>
               ret (alert vote_submitted (set_storage ls p1))
           | (Throws e, _) => throw e
           end)
          (fun _ =>
             console_error "Error submitting vote:" ;;;
             ret (alert vote_failed p1))
  end.

End VotePage.

(** ** JavaScript strings *)

Module JsString.

(** A string is the sequence of its UTF-16 code units. *)
Definition JsString : Type := list N.

Definition chr (a : ascii) : N := N_of_ascii a.

(** A literal of the source (ASCII). *)
Definition lit (s : string) : JsString := map chr (list_ascii_of_string s).

Definition in_range (lo hi : ascii) (c : N) : bool :=
  (chr lo <=? c)%N && (c <=? chr hi)%N.

(** Truthiness: the empty string is falsy. *)
Definition nonempty (s : JsString) : bool :=
  match s with [] => false | _ :: _ => true end.

(** [s.length] *)
Definition len (s : JsString) : Z := Z.of_nat (List.length s).

(** [s.slice(start, end)]: a negative index counts from the end, and
    both are clamped to the string. *)
Definition slice (s : JsString) (start end_ : Z) : JsString :=
  let from := if start <? 0 then Z.max (len s + start) 0
              else Z.min start (len s) in
  let to := if end_ <? 0 then Z.max (len s + end_) 0
            else Z.min end_ (len s) in
  firstn (Z.to_nat (to - from)) (skipn (Z.to_nat from) s).

(** White space of [trim]: WhiteSpace and LineTerminator. *)
Definition is_white_space (c : N) : bool :=
  ((9 <=? c) && (c <=? 13) || (c =? 32) || (c =? 160) || (c =? 5760)
   || (8192 <=? c) && (c <=? 8202) || (c =? 8232) || (c =? 8233)
   || (c =? 8239) || (c =? 8287) || (c =? 12288) || (c =? 65279))%N.

Fixpoint trimStart (s : JsString) : JsString :=
  match s with
  | [] => []
  | c :: rest => if is_white_space c then trimStart rest else s
  end.

Definition trimEnd (s : JsString) : JsString := rev (trimStart (rev s)).

Definition trim (s : JsString) : JsString := trimEnd (trimStart s).

(** [s.split(sep)] for a separator of one unit. *)
Fixpoint split (sep : N) (s : JsString) : list JsString :=
  match s with
  | [] => [[]]
  | c :: rest =>
      if (c =? sep)%N then [] :: split sep rest
      else match split sep rest with
           | item :: items => (c :: item) :: items
           | [] => [[c]]
           end
  end.

(** [items.join(sep)] *)
Fixpoint join (sep : JsString) (items : list JsString) : JsString :=
  match items with
  | [] => []
  | [item] => item
  | item :: rest => item ++ sep ++ join sep rest
  end.

(** [s.startsWith(prefix)] *)
Fixpoint startsWith (s prefix : JsString) : bool :=
  match prefix, s with
  | [], _ => true
  | p :: prefix', c :: s' => (c =? p)%N && startsWith s' prefix'
  | _ :: _, [] => false
  end.

(** [s.substring(start, end)] for [0 <= start <= end]. *)
Definition substring (s : JsString) (start end_ : nat) : JsString :=
  firstn (end_ - start) (skipn start s).

(** [toUpperCase] on the units of ASCII. *)
Definition toUpperCase_ascii (c : N) : N :=
  if in_range "a" "z" c then (c - 32)%N else c.

End JsString.

(** ** [lib/entry-codes.ts] *)

Module EntryCodes.
Import JsString.

Definition chars : JsString := lit "123456789ABCDEFGHJKLMNPQRSTUVWXYZ".

(** [Math.floor(Math.random() * chars.length)], for the draw [u]. *)
Definition randomIndex (u : Q) : Z := Qfloor (u * inject_Z (len chars)).

(** [code += chars[randomIndex]]: out of range [chars[i]] is
    [undefined], which [+=] appends as text. *)
Definition char_at (s : JsString) (i : Z) : JsString :=
  if i <? 0 then lit "undefined"
  else match nth_error s (Z.to_nat i) with
       | Some c => [c]
       | None => lit "undefined"
       end.

(** The loop of [generateRandomCode]; [random i] is the value of the
    [i]-th call of [Math.random]. *)
Definition generateRandomCode (random : nat -> Q) : JsString :=
  fold_left
    (fun code i => code ++ char_at chars (randomIndex (random i)))
    (seq 0 4) [].

Definition generateEntryCode (random : nat -> Q) : JsString :=
  lit "CHILI-" ++ generateRandomCode random.

(** [[1-9A-HJ-NP-Z]] *)
Definition code_char (c : N) : bool :=
  in_range "1" "9" c || in_range "A" "H" c || in_range "J" "N" c
  || in_range "P" "Z" c.

(** [/^CHILI-[1-9A-HJ-NP-Z]{4}$/.test(code)] *)
Definition isValidEntryCode (code : JsString) : bool :=
  startsWith code (lit "CHILI-")
  && (List.length (skipn 6 code) =? 4)%nat
  && forallb code_char (skipn 6 code).

(** [/[^A-Z0-9]/gi]: with the flag [i] (and without [u]) the class
    [A-Z0-9] holds the letters of both cases and the digits, and no
    unit beyond ASCII. *)
Definition is_alphanumeric (c : N) : bool :=
  in_range "A" "Z" c || in_range "a" "z" c || in_range "0" "9" c.

Definition formatEntryCode (code : JsString) : JsString :=
  (* what is left has ASCII letters and digits only *)
  let cleaned := map toUpperCase_ascii (filter is_alphanumeric code) in
  if startsWith cleaned (lit "CHILI") then
    let suffix := substring cleaned 5 9 in
    lit "CHILI-" ++ suffix
  else if (List.length cleaned =? 4)%nat then
    lit "CHILI-" ++ cleaned
  else code.

(** [lib/validation.ts], [entryCodeSchema]: [/^CHILI-[A-Z0-9]{4}$/] *)
Definition schema_char (c : N) : bool :=
  in_range "A" "Z" c || in_range "0" "9" c.

Definition entryCodeSchema (code : JsString) : bool :=
  startsWith code (lit "CHILI-")
  && (List.length (skipn 6 code) =? 4)%nat
  && forallb schema_char (skipn 6 code).

End EntryCodes.

(** ** [lib/text-normalization.ts] and [lib/sanitization.ts]: the
    functions on plain units *)

Module TextUtils.
Import JsString.

Definition truncateText (text : JsString) (maxLength : Z) : JsString :=
  if negb (nonempty text) then []
  else if len text <=? maxLength then text
  else slice text 0 (maxLength - 3) ++ lit "...".

(** [ingredients.filter(Boolean).join(', ')] *)
Definition formatIngredientsList (ingredients : list JsString)
    : JsString :=
  join (lit ", ") (filter nonempty ingredients).

(** [.includes('>')] of what follows, as the engine finds out when it
    tries [<[^>]*>] at a [<]. *)
Definition closes (rest : JsString) : bool :=
  existsb (N.eqb (chr ">")) rest.

(** [html.replace(/<[^>]*>/g, '')]: from left to right, a [<] that is
    followed by a [>] is removed with everything up to the first such
    [>]; [in_tag] holds inside such a match. *)
Fixpoint strip_tags (in_tag : bool) (html : JsString) : JsString :=
  match html with
  | [] => []
  | c :: rest =>
      if in_tag then
        if (c =? chr ">")%N then strip_tags false rest
        else strip_tags true rest
      else if (c =? chr "<")%N && closes rest then strip_tags true rest
      else c :: strip_tags false rest
  end.

Definition stripHtmlTags (html : JsString) : JsString :=
  if negb (nonempty html) then [] else strip_tags false html.

(** [.replace(/\.\./g, '')]: the pairs of dots, from left to right. *)
Fixpoint remove_dot_pairs (s : JsString) : JsString :=
  match s with
  | [] => []
  | a :: tail =>
      match tail with
      | b :: rest =>
          if (a =? chr ".")%N && (b =? chr ".")%N
          then remove_dot_pairs rest
          else a :: remove_dot_pairs tail
      | [] => [a]
      end
  end.

(** The class of the second replacement: slash and backslash. *)
Definition is_separator (c : N) : bool :=
  (c =? chr "/")%N || (c =? 92)%N.

(** The class of the third replacement: the units of [<], [>], [:],
    the double quote, [|], [?] and the star, and the control units 0
    to 31. *)
Definition is_dangerous (c : N) : bool :=
  ((c =? chr "<") || (c =? chr ">") || (c =? chr ":") || (c =? 34)
   || (c =? chr "|") || (c =? chr "?") || (c =? chr "*")
   || (c <=? 31))%N.

Definition sanitizeFilename (filename : JsString) : JsString :=
  if negb (nonempty filename) then lit "file"
  else
    let cleaned :=
      slice
        (filter (fun c => negb (is_dangerous c))
           (filter (fun c => negb (is_separator c))
              (remove_dot_pairs filename)))
        0 255 in
    if nonempty cleaned then cleaned else lit "file".

End TextUtils.

(** The expression of [ChiliDatabase.submitChiliEntry] that turns the
    text of the form into the array that is stored:
    [text ? text.split(',').map(i => i.trim()).filter(i => i) : []] *)
Module ChiliSubmission.
Import JsString.

Definition ingredient_items (text : JsString) : list JsString :=
  if nonempty text
  then filter nonempty (map trim (split (chr ",") text))
  else [].

End ChiliSubmission.

(** * Properties of the vote pipeline *)

Import Js Supabase ChiliDatabase.
Local Open Scope async_scope.

(** ** Vocabulary of the statements *)

(** The requests sent between two worlds of one run. *)
Definition issued (w w' : World) : list Request :=
  skipn (List.length (requests w)) (requests w').

Definition is_lookup (r : Request) : bool :=
  match r with
  | SessionLookup | FingerprintLookup | IpLookup => true
  | _ => false
  end.

Definition find_entry (chiliId : string) (es : list ChiliEntry)
    : option ChiliEntry :=
  find (fun e => String.eqb (id e) chiliId) es.

(** The sum r1 + ... + rN of a list of ratings. *)
Fixpoint total (rs : list Z) : Z :=
  match rs with
  | [] => 0
  | r :: rest => r + total rest
  end.

(** [r] is [q] rounded to one decimal place: a whole number of tenths,
    at most half a tenth away from [q], the upper one of the two
    candidates when [q] lies exactly between them. *)
Definition rounds_to_one_decimal (q r : Q) : Prop :=
  (exists k : Z, r == k # 10)%Q
  /\ (r - (1 # 20) <= q)%Q /\ (q < r + (1 # 20))%Q.

(** The aggregates of entry [chiliId] recomputed from the stored votes
    [vs]. *)
Definition recomputed (chiliId : string) (vs : list VoteRow)
    (es : list ChiliEntry) : list ChiliEntry :=
  let ratings := map overall_rating (votes_of chiliId vs) in
  update_entries chiliId (Z.of_nat (List.length ratings))
    (sum_ratings ratings)
    (round_one_decimal
       (inject_Z (sum_ratings ratings)
        / inject_Z (Z.of_nat (List.length ratings))))
    es.

(** The accept/reject chain of the validator as the specification words
    it, over the stored votes of the entry: the first check that finds
    one decides.  An ipAddress is supplied when it is a non-empty
    string. *)
Definition same_session (sessionId : string) (v : VoteRow) : bool :=
  String.eqb (session_id v) sessionId.

Definition same_device (deviceFingerprint : string) (v : VoteRow) : bool :=
  eq_col (device_fingerprint v) deviceFingerprint.

Definition same_network_recently (ip : string) (now_ms : Z) (v : VoteRow)
    : bool :=
  eq_col (ip_address v) ip && (now_ms - 5 * 60 * 1000 <=? created_at v).

Definition chain_verdict (now_ms : Z) (vs : list VoteRow)
    (chiliId sessionId deviceFingerprint : string)
    (ipAddress : option string) : Validation :=
  let stored := votes_of chiliId vs in
  if existsb (same_session sessionId) stored
  then mkValidation false (Some already_voted)
  else if existsb (same_device deviceFingerprint) stored
  then mkValidation false (Some device_voted)
  else match ipAddress with
       | Some ip =>
           if truthy ipAddress
              && existsb (same_network_recently ip now_ms) stored
           then mkValidation false (Some network_voted)
           else mkValidation true None
       | None => mkValidation true None
       end.

(** The checks the chain runs before it decides. *)
Definition chain_requests (vs : list VoteRow)
    (chiliId sessionId deviceFingerprint : string)
    (ipAddress : option string) : list Request :=
  let stored := votes_of chiliId vs in
  if existsb (same_session sessionId) stored
  then [SessionLookup]
  else if existsb (same_device deviceFingerprint) stored
  then [SessionLookup; FingerprintLookup]
  else if truthy ipAddress
       then [SessionLookup; FingerprintLookup; IpLookup]
       else [SessionLookup; FingerprintLookup].

(** A sequence of submissions, each in its own environment. *)
Fixpoint submitVotes (steps : list (Env * VoteSubmission)) (w : World)
    : list (Outcome unit) * World :=
  match steps with
  | [] => ([], w)
  | (env, vote) :: rest =>
      let (o, w1) := submitVote env vote w in
      let (os, w2) := submitVotes rest w1 in
      (o :: os, w2)
  end.

(** The overall ratings of the submissions for [chiliId] that were
    accepted (the call returned). *)
Fixpoint accepted_ratings (chiliId : string)
    (steps : list (Env * VoteSubmission)) (outcomes : list (Outcome unit))
    : list Z :=
  match steps, outcomes with
  | (_, vote) :: steps', Returns _ :: outcomes' =>
      if String.eqb (ChiliDatabase.chiliId vote) chiliId
      then overallRating vote :: accepted_ratings chiliId steps' outcomes'
      else accepted_ratings chiliId steps' outcomes'
  | _ :: steps', Throws _ :: outcomes' =>
      accepted_ratings chiliId steps' outcomes'
  | _, _ => []
  end.

Definition any_rating_out_of_range (v : VoteSubmission) : bool :=
  let bad := fun r => (r <? 1) || (5 <? r) in
  bad (overallRating v)
  || bad (taste (categoryRatings v))
  || bad (presentation (categoryRatings v))
  || bad (creativity (categoryRatings v))
  || bad (spiceBalance (categoryRatings v)).

(** The two messages [submitVote] and [updateChiliStats] log. *)
Definition submit_failed : string := "Error submitting vote:".
Definition stats_failed : string := "Error updating chili stats:".

(** The three stages of [submitVote]. *)
Definition bypass_or_validate (env : Env) (vote : VoteSubmission)
    : Async unit :=
  isAdmin <- AdminAuth.isAuthenticated env ;;
  match deviceFingerprint vote with
  | Some fp =>
      if negb isAdmin && truthy (deviceFingerprint vote) then
        validation <- validateVote env (chiliId vote)
                        (sessionId vote) fp (ipAddress vote) ;;
        if negb (allowed validation)
        then throw (new_Error (or_else (reason validation)
                                       "Duplicate vote detected"))
        else ret tt
      else ret tt
  | None => ret tt
  end.

Definition insert_then_recompute (env : Env) (vote : VoteSubmission)
    : Async unit :=
  inserted <- await_request env InsertVote
    (fun w =>
       (@mkResponse unit None None,
        set_votes (votes w ++ [vote_row env vote]) w)) ;;
  match error inserted with
  | Some voteError => throw voteError
  | None => updateChiliStats env (chiliId vote)
  end.

Definition rethrow (error : Thrown) : Async unit :=
  console_error submit_failed ;;;
  if instanceof_Error error then throw error
  else throw (new_Error "Failed to submit vote").

(** The validator is not run: the caller is an authenticated admin or the
    submission carries no fingerprint. *)
Definition bypassed (env : Env) (vote : VoteSubmission) (w : World) : Prop :=
  fst (AdminAuth.isAuthenticated env w) = Returns true
  \/ truthy (deviceFingerprint vote) = false.

(** A world that holds the given votes and nothing else, and the result
    of a validation run on it carried over to the world [w]. *)
Definition only_votes (vs : list VoteRow) : World :=
  {| votes := vs; chili_entries := []; admin_session := None;
     console := []; requests := [] |}.

Definition replay (w : World) (r : Outcome Validation * World)
    : Outcome Validation * World :=
  (fst r,
   {| votes := votes w; chili_entries := chili_entries w;
      admin_session := admin_session w;
      console := console w ++ console (snd r);
      requests := requests w ++ requests (snd r) |}).

(** The overall ratings of the stored votes of entry [E]. *)
Definition ratings_of (E : string) (w : World) : list Z :=
  map overall_rating (votes_of E (votes w)).

(** The entry [updateChiliStats] writes for the ratings [rs]. *)
Definition stats_entry (key : string) (rs : list Z) : ChiliEntry :=
  {| id := key;
     vote_count := Z.of_nat (List.length rs);
     total_score := sum_ratings rs;
     average_rating :=
       round_one_decimal
         (inject_Z (sum_ratings rs) / inject_Z (Z.of_nat (List.length rs))) |}.

(** The aggregates of [e] are those of the ratings r1..rN: their number,
    their sum and their mean rounded to one decimal place. *)
Definition aggregates_match (rs : list Z) (e : ChiliEntry) : Prop :=
  vote_count e = Z.of_nat (List.length rs)
  /\ total_score e = total rs
  /\ rounds_to_one_decimal
       (inject_Z (total rs) / inject_Z (Z.of_nat (List.length rs)))
       (average_rating e).

(** The invariant of an entry:
    average_rating = round (total_score / vote_count, 1) whenever
    vote_count > 0. *)
Definition average_invariant (e : ChiliEntry) : Prop :=
  0 < vote_count e ->
  rounds_to_one_decimal
    (inject_Z (total_score e) / inject_Z (vote_count e))
    (average_rating e).

(** The overall ratings of the submissions of [steps] for entry [E], and
    the outcomes of a run in which every submission returned. *)
Definition cast_for (E : string) (steps : list (Env * VoteSubmission))
    : list Z :=
  map (fun s => overallRating (snd s))
    (filter (fun s => String.eqb (chiliId (snd s)) E) steps).

Definition all_accepted (steps : list (Env * VoteSubmission))
    : list (Outcome unit) :=
  map (fun _ => Returns tt) steps.

(** Two submissions that differ at most in their ratings and comment. *)
Definition same_identity (v v' : VoteSubmission) : Prop :=
  chiliId v = chiliId v' /\ sessionId v = sessionId v'
  /\ deviceFingerprint v = deviceFingerprint v'
  /\ ipAddress v = ipAddress v'.

(** The messages of the three duplicate checks. *)
Definition duplicate_reasons : list string :=
  [already_voted; device_voted; network_voted].

(** The deletion of the entries [ids] one by one. *)
Fixpoint delete_each
    (votes_after_delete : list string -> list VoteRow -> list VoteRow)
    (f : Fault) (ids : list string) : Async unit :=
  match ids with
  | [] => ret tt
  | i :: rest =>
      ChiliDatabaseOps.deleteChiliEntry votes_after_delete f i ;;;
      delete_each votes_after_delete f rest
  end.

(** ** Sample data *)

Definition healthy : Request -> Fault := fun _ => Healthy.

(** A browser at time [t] with the given failures. *)
Definition browser (t : Z) (f : Request -> Fault) : Env :=
  {| window_defined := true; now := t; db_now := t; fault := f |}.

Definition failing (r : Request) (how : Fault) : Request -> Fault :=
  fun q => if Request_eqb q r then how else Healthy.

Definition network_down : Thrown :=
  {| instanceof_Error := true; message := "fetch failed" |}.

Definition service_unavailable : Thrown :=
  {| instanceof_Error := false; message := "service unavailable" |}.

Definition stars (n : Z) : CategoryRatings :=
  {| taste := n; presentation := n; creativity := n; spiceBalance := n |}.

Definition ballot (c s : string) (fp ip : option string) (r : Z)
    : VoteSubmission :=
  {| chiliId := c; sessionId := s; deviceFingerprint := fp;
     ipAddress := ip; overallRating := r; categoryRatings := stars r;
     comments := None |}.

Definition texas_red : ChiliEntry :=
  {| id := "texas-red"; vote_count := 0; total_score := 0;
     average_rating := 0 |}.

Definition verde : ChiliEntry :=
  {| id := "verde"; vote_count := 0; total_score := 0;
     average_rating := 0 |}.

Definition cook_off (vs : list VoteRow) (admin : option StoredItem)
    : World :=
  {| votes := vs; chili_entries := [texas_red; verde];
     admin_session := admin; console := []; requests := [] |}.

Definition noon : Z := 1700000000000.

(** The row a ballot leaves in the store when inserted at time [t]. *)
Definition stored (t : Z) (b : VoteSubmission) : VoteRow :=
  vote_row (browser t healthy) b.

(** The scenario of the first accepted vote, and the environments in
    which a later request meets a failure. *)
Definition first_ballot : VoteSubmission :=
  ballot "texas-red" "S1" (Some "F1") None 5.

Definition after_first_vote : World :=
  cook_off [stored noon first_ballot] None.

Definition later : Env := browser (noon + 1000) healthy.

Definition session_lookup_rejects : Env :=
  browser (noon + 1000) (failing SessionLookup (Rejected network_down)).

Definition session_lookup_errors : Env :=
  browser (noon + 1000)
    (failing SessionLookup (ErrorResult service_unavailable)).

Definition insert_errors : Env :=
  browser (noon + 1000)
    (failing InsertVote (ErrorResult service_unavailable)).

Definition select_rejects : Env :=
  browser (noon + 1000) (failing SelectRatings (Rejected network_down)).

(** A vote cast without a fingerprint, as the QR-code page sends it. *)
Definition qr_ballot : VoteSubmission :=
  ballot "texas-red" "S1" None None 4.

Definition after_qr_vote : World :=
  cook_off [stored noon qr_ballot] None.



(** The cook-off before any vote, and the scenario of the
    specification: S1/F1 votes 5, votes again, S2 votes from the same
    device, S2 votes 3 from another device. *)
Definition opening : World := cook_off [] None.

Definition texas_red_scenario : list (Env * VoteSubmission) :=
  [ (later, first_ballot);
    (later, first_ballot);
    (later, ballot "texas-red" "S2" (Some "F1") None 5);
    (later, ballot "texas-red" "S2" (Some "F2") None 3) ].

(** An admin logged in at noon votes three times with one identity. *)
Definition admin_logged_in : World :=
  cook_off [] (Some (SessionJson true (noon + AdminAuth.SESSION_DURATION))).

Definition admin_votes : list (Env * VoteSubmission) :=
  [ (later, first_ballot); (later, first_ballot); (later, first_ballot) ].

(** A ballot with nine stars, and a store in which one identity has two
    votes for the same entry. *)
Definition nine_star_ballot : VoteSubmission :=
  ballot "texas-red" "S1" (Some "F1") None 9.

Definition voted_twice : World :=
  cook_off [stored noon first_ballot; stored noon first_ballot] None.

(** A voter of the other entry. *)
Definition after_verde_vote : World :=
  cook_off [stored noon (ballot "verde" "S1" (Some "F1") None 4)] None.

(** The browser a day and a minute after noon. *)
Definition next_day : Env :=
  browser (noon + AdminAuth.SESSION_DURATION + 60000) healthy.

(** Four draws of [Math.random]. *)
Definition draws (i : nat) : Q := Z.of_nat i # 4.

(** The local storage of a voter of the verde, and the QR page that
    holds the texas red in that browser. *)
Definition verde_voter : SessionManager.LocalStorage :=
  {| SessionManager.chili_voter_session := Some "S1";
     SessionManager.voted_chilis :=
       Some (SessionManager.VotedArray ["verde"]) |}.

Definition texas_red_page : VotePage.Page :=
  VotePage.setChili texas_red (VotePage.initial verde_voter).

Definition four_stars : VotePage.VoteData :=
  {| VotePage.overallRating := 4; VotePage.taste := 4;
     VotePage.presentation := 4; VotePage.creativity := 4;
     VotePage.spiceBalance := 4; VotePage.comments := "" |}.

Definition taste_unrated : VotePage.VoteData :=
  {| VotePage.overallRating := 4; VotePage.taste := 0;
     VotePage.presentation := 4; VotePage.creativity := 4;
     VotePage.spiceBalance := 4; VotePage.comments := "" |}.

(** The order of the rows taken as the order of the table. *)
Definition table_order (es : list ChiliEntry) : list ChiliEntry := es.

(** ** Basic facts *)

Lemma issued_app (w w' : World) (l : list Request) :
  requests w' = requests w ++ l -> issued w w' = l.
Proof.
  unfold issued. intros ->.
  rewrite skipn_app, skipn_all, Nat.sub_diag. reflexivity.
Qed.

Lemma lookups_only l r :
  forallb is_lookup l = true -> In r l -> is_lookup r = true.
Proof. intros H Hin. rewrite forallb_forall in H. auto. Qed.

Lemma not_lookup_app l r tail :
  forallb is_lookup l = true -> is_lookup r = false -> ~ In r tail ->
  ~ In r (l ++ tail).
Proof.
  intros Hl Hr Hne Hin. apply in_app_or in Hin as [Hin|Hin].
  - apply (lookups_only _ _ Hl) in Hin. congruence.
  - contradiction.
Qed.

Lemma sum_ratings_shift (rs : list Z) (a : Z) :
  fold_left (fun sum r => sum + r) rs a = a + total rs.
Proof.
  revert a. induction rs as [|r rs IH]; intros a; cbn.
  - lia.
  - rewrite IH. lia.
Qed.

Lemma sum_ratings_total (rs : list Z) : sum_ratings rs = total rs.
Proof. unfold sum_ratings. rewrite sum_ratings_shift. lia. Qed.

Lemma total_app (xs ys : list Z) : total (xs ++ ys) = total xs + total ys.
Proof. induction xs as [|x xs IH]; cbn; lia. Qed.

Lemma filter_andb {A} (p q : A -> bool) (l : list A) :
  filter (fun x => p x && q x) l = filter p (filter q l).
Proof.
  induction l as [|x l IH]; cbn; [reflexivity|].
  destruct (q x); cbn; destruct (p x); cbn; rewrite ?IH; reflexivity.
Qed.

Lemma tenths (k : Z) : (inject_Z k / inject_Z 10 == k # 10)%Q.
Proof. unfold Qeq, Qdiv, Qmult, Qinv, inject_Z; cbn. lia. Qed.

(** [Math.round(x * 10) / 10] rounds to one decimal place. *)
Lemma round_one_decimal_spec (q : Q) :
  rounds_to_one_decimal q (round_one_decimal q).
Proof.
  unfold rounds_to_one_decimal, round_one_decimal, Math_round.
  set (x := (q * inject_Z 10 + (1 # 2))%Q).
  pose proof (Qfloor_le x) as Hlo.
  pose proof (Qlt_floor x) as Hhi.
  rewrite inject_Z_plus in Hhi.
  assert (Hk : (inject_Z (Qfloor x) / inject_Z 10
                == inject_Z (Qfloor x) * (1 # 10))%Q)
    by (unfold Qdiv; reflexivity).
  split; [exists (Qfloor x); apply tenths|].
  rewrite Hk. subst x.
  change (inject_Z 10) with (10 # 1) in *.
  change (inject_Z 1) with (1 # 1) in *.
  split; lra.
Qed.

(** The rounded value is determined by the value rounded. *)
Lemma rounds_to_one_decimal_unique (q r1 r2 : Q) :
  rounds_to_one_decimal q r1 -> rounds_to_one_decimal q r2 ->
  (r1 == r2)%Q.
Proof.
  intros [[k1 H1] [A1 B1]] [[k2 H2] [A2 B2]].
  rewrite H1, H2 in *.
  assert (k1 = k2); [|subst; reflexivity].
  assert ((k1 # 10) < (k2 # 10) + (1 # 10))%Q by lra.
  assert ((k2 # 10) < (k1 # 10) + (1 # 10))%Q by lra.
  unfold Qlt, Qplus in *; cbn in *. lia.
Qed.

Lemma stats_entry_matches key rs : aggregates_match rs (stats_entry key rs).
Proof.
  unfold aggregates_match, stats_entry. cbn.
  rewrite sum_ratings_total. repeat split; try reflexivity;
    apply round_one_decimal_spec.
Qed.

(** ** The validator *)

Ltac run :=
  unfold validateVote, updateChiliStats, try_catch, bind, await_request,
    read_only, ret, throw, console_error; cbn.

Ltac split_cases env :=
  repeat match goal with
  | |- context [fault env ?r] => destruct (fault env r) eqn:?; cbn
  | |- context [maybeSingle ?l] =>
      destruct (maybeSingle l) as [[?|] ?] eqn:?; cbn
  | |- context [match ?ip with Some _ => _ | None => _ end] =>
      is_var ip; destruct ip; cbn
  | |- context [if negb (String.eqb ?x ?y) then _ else _] =>
      destruct (String.eqb x y) eqn:?; cbn
  end.

Ltac trace_tail :=
  eexists; split; [rewrite <- ?app_assoc; reflexivity | reflexivity].

(** [validateVote] always returns, reads only, and sends lookups only. *)
Lemma validateVote_frame env c s f ip w :
  let r := validateVote env c s f ip w in
  (exists v, fst r = Returns v)
  /\ votes (snd r) = votes w
  /\ chili_entries (snd r) = chili_entries w
  /\ admin_session (snd r) = admin_session w
  /\ exists l, requests (snd r) = requests w ++ l
               /\ forallb is_lookup l = true.
Proof.
  run. split_cases env; repeat split; eauto; trace_tail.
Qed.

Lemma session_rows_votes_of c s vs :
  session_rows c s vs = filter (same_session s) (votes_of c vs).
Proof. apply filter_andb. Qed.

Lemma fingerprint_rows_votes_of c f vs :
  fingerprint_rows c f vs = filter (same_device f) (votes_of c vs).
Proof. apply filter_andb. Qed.

Lemma ip_rows_votes_of c i now_ms vs :
  ip_rows c i (now_ms - 5 * 60 * 1000) vs
  = filter (same_network_recently i now_ms) (votes_of c vs).
Proof.
  unfold ip_rows, votes_of, same_network_recently.
  rewrite <- filter_andb. apply filter_ext. intros v.
  destruct (eq_col _ _), (String.eqb _ _), (_ <=? _); reflexivity.
Qed.

Lemma votes_of_idem c vs : votes_of c (votes_of c vs) = votes_of c vs.
Proof.
  unfold votes_of. rewrite <- filter_andb. apply filter_ext.
  intros v. apply andb_diag.
Qed.

Lemma votes_of_app c xs ys :
  votes_of c (xs ++ ys) = votes_of c xs ++ votes_of c ys.
Proof. apply filter_app. Qed.

Lemma votes_of_without c pre post v :
  chili_id v <> c ->
  votes_of c (pre ++ v :: post) = votes_of c (pre ++ post).
Proof.
  intros Hne. rewrite !votes_of_app. f_equal.
  unfold votes_of. cbn.
  destruct (String.eqb_spec (chili_id v) c); [contradiction|reflexivity].
Qed.

(** On at most one selected row, [maybeSingle] yields data exactly when
    some row satisfies the filter. *)
Lemma maybeSingle_found {A} (p : A -> bool) (l : list A) :
  (List.length (filter p l) <= 1)%nat ->
  is_some (data (maybeSingle (filter p l))) = existsb p l.
Proof.
  intros Hlen.
  destruct (filter p l) as [|a [|b rest]] eqn:Hf; cbn in *.
  - symmetry. apply not_true_is_false. intros Hex.
    apply existsb_exists in Hex as [x [Hin Hp]].
    assert (In x (filter p l)) by (apply filter_In; auto).
    rewrite Hf in *. contradiction.
  - symmetry. apply existsb_exists. exists a.
    apply filter_In. rewrite Hf. left; reflexivity.
  - lia.
Qed.

Lemma session_rows_local c s vs :
  session_rows c s (votes_of c vs) = session_rows c s vs.
Proof. rewrite !session_rows_votes_of, votes_of_idem. reflexivity. Qed.

Lemma fingerprint_rows_local c f vs :
  fingerprint_rows c f (votes_of c vs) = fingerprint_rows c f vs.
Proof. rewrite !fingerprint_rows_votes_of, votes_of_idem. reflexivity. Qed.

Lemma ip_rows_local c i t vs :
  ip_rows c i t (votes_of c vs) = ip_rows c i t vs.
Proof.
  unfold ip_rows, votes_of. rewrite <- filter_andb. apply filter_ext.
  intros v. destruct (eq_col _ _), (String.eqb _ _), (_ <=? _); reflexivity.
Qed.

Ltac same_world :=
  unfold replay, log_console, log_request; cbn;
  rewrite ?app_nil_r, <- ?app_assoc; reflexivity.

Ltac local_step env :=
  cbn [votes only_votes log_request log_console fst snd data is_some];
  rewrite ?session_rows_local, ?fingerprint_rows_local, ?ip_rows_local;
  first
    [ same_world
    | match goal with
      | |- context [fault env ?r] => destruct (fault env r)
      | |- context [maybeSingle ?l] =>
          destruct (maybeSingle l) as [[?|] ?]
      | |- context [match ?ip with Some _ => _ | None => _ end] =>
          is_var ip; destruct ip
      | |- context [truthy ?x] => destruct (truthy x)
      end; local_step env ].

Lemma validateVote_local env c s f ip w :
  validateVote env c s f ip w
  = replay w (validateVote env c s f ip (only_votes (votes_of c (votes w)))).
Proof.
  unfold validateVote, try_catch, bind, await_request, read_only, ret,
    throw, console_error.
  local_step env.
Qed.

Lemma validateVote_same_entry_votes env c s f ip w w' :
  votes_of c (votes w') = votes_of c (votes w) ->
  fst (validateVote env c s f ip w') = fst (validateVote env c s f ip w)
  /\ issued w' (snd (validateVote env c s f ip w'))
     = issued w (snd (validateVote env c s f ip w)).
Proof.
  intros Hsame.
  rewrite (validateVote_local env c s f ip w),
    (validateVote_local env c s f ip w'), Hsame.
  split; [reflexivity|].
  unfold replay; cbn [snd].
  etransitivity; [apply issued_app; reflexivity|].
  symmetry. apply issued_app. reflexivity.
Qed.

Ltac sent_in H :=
  erewrite issued_app in H
    by (unfold log_console, log_request; cbn;
        rewrite <- ?app_assoc; reflexivity);
  cbn in H.

(** A lookup that was sent and rejects makes [validateVote] allow the
    vote: the catch block is reached. *)
Lemma validateVote_fails_open_on_rejection env c s f ip w r e :
  In r (issued w (snd (validateVote env c s f ip w))) ->
  fault env r = Rejected e ->
  fst (validateVote env c s f ip w) = Returns (mkValidation true None).
Proof.
  intros Hin Hrej. revert Hin.
  unfold validateVote, try_catch, bind, await_request, read_only, ret,
    throw, console_error.
  cbn. split_cases env; intros Hin; try reflexivity; exfalso;
    sent_in Hin; intuition (subst; congruence).
Qed.

(** With no stored vote for the entry every check passes, whatever
    happens to the lookups. *)
Lemma validateVote_no_votes env c s f ip w :
  votes_of c (votes w) = [] ->
  fst (validateVote env c s f ip w) = Returns (mkValidation true None).
Proof.
  intros Hnone. rewrite validateVote_local, Hnone.
  unfold replay. cbn [fst].
  unfold validateVote, try_catch, bind, await_request, read_only, ret,
    throw, console_error.
  cbn. split_cases env; reflexivity.
Qed.

(** ** The admin session *)

Lemma isAuthenticated_frame env w :
  let r := AdminAuth.isAuthenticated env w in
  (exists b, fst r = Returns b)
  /\ votes (snd r) = votes w
  /\ chili_entries (snd r) = chili_entries w
  /\ requests (snd r) = requests w
  /\ (fst r = Returns true -> snd r = w).
Proof.
  unfold AdminAuth.isAuthenticated, AdminAuth.clearSession,
    AdminAuth.JSON_parse, try_catch, bind, ret, throw, console_error.
  destruct (window_defined env); cbn; [|intuition (eauto; discriminate)].
  destruct (admin_session w) as [[|a ex]|]; cbn;
    [intuition (eauto; discriminate)| |intuition (eauto; discriminate)].
  destruct (ex <? now env); cbn; [intuition (eauto; discriminate)|].
  intuition eauto.
Qed.

Lemma isAuthenticated_true_iff env w :
  fst (AdminAuth.isAuthenticated env w) = Returns true
  <-> window_defined env = true
      /\ exists ex, admin_session w = Some (SessionJson true ex)
                    /\ now env <= ex.
Proof.
  unfold AdminAuth.isAuthenticated, AdminAuth.clearSession,
    AdminAuth.JSON_parse, try_catch, bind, ret, throw, console_error.
  destruct (window_defined env); cbn;
    [|split; [discriminate|intros [? _]; discriminate]].
  destruct (admin_session w) as [[|a ex]|]; cbn.
  - split; [discriminate|intros [_ [? [? _]]]; discriminate].
  - destruct (Z.ltb_spec ex (now env)); cbn.
    + split; [discriminate|].
      intros [_ [ex' [Heq Hle]]]. inversion Heq; subst. lia.
    + split.
      * intros Heq. inversion Heq; subst. split; [reflexivity|].
        exists ex. split; [reflexivity|lia].
      * intros [_ [ex' [Heq Hle]]]. inversion Heq; subst. reflexivity.
  - split; [discriminate|intros [_ [? [? _]]]; discriminate].
Qed.

Lemma isAuthenticated_same_slot env w w' :
  admin_session w' = admin_session w ->
  fst (AdminAuth.isAuthenticated env w) = Returns true ->
  fst (AdminAuth.isAuthenticated env w') = Returns true.
Proof.
  intros Hslot H. apply isAuthenticated_true_iff in H.
  apply isAuthenticated_true_iff. rewrite Hslot. exact H.
Qed.

(** ** The statistics maintainer *)

Lemma has_ratings c vs :
  votes_of c vs <> [] ->
  (0 <? Z.of_nat (List.length (map overall_rating (votes_of c vs)))) = true.
Proof.
  intros H. rewrite length_map. apply Z.ltb_lt.
  destruct (votes_of c vs); [congruence|cbn; lia].
Qed.

Lemma updateChiliStats_no_votes env c w :
  votes_of c (votes w) = [] ->
  fault env SelectRatings = Healthy ->
  updateChiliStats env c w = (Returns tt, log_request SelectRatings w).
Proof.
  intros Hv Hs. unfold updateChiliStats, try_catch, bind, await_request, read_only.
  rewrite Hs. cbn [data error votes log_request fst snd].
  rewrite Hv. reflexivity.
Qed.

Lemma updateChiliStats_healthy env c w :
  votes_of c (votes w) <> [] ->
  fault env SelectRatings = Healthy ->
  fault env UpdateEntry = Healthy ->
  updateChiliStats env c w
  = (Returns tt,
     set_chili_entries (recomputed c (votes w) (chili_entries w))
       (log_request UpdateEntry (log_request SelectRatings w))).
Proof.
  intros Hv Hs Hu.
  unfold updateChiliStats, try_catch, bind, await_request, read_only.
  rewrite Hs. cbn [data error votes log_request fst snd].
  rewrite (has_ratings _ _ Hv). rewrite Hu. reflexivity.
Qed.

Lemma updateChiliStats_select_failed env c w :
  fault env SelectRatings <> Healthy ->
  updateChiliStats env c w
  = (Returns tt, log_console stats_failed (log_request SelectRatings w)).
Proof.
  intros Hs. unfold updateChiliStats, try_catch, bind, await_request, read_only.
  destruct (fault env SelectRatings); [congruence| |]; reflexivity.
Qed.

Lemma updateChiliStats_update_failed env c w :
  votes_of c (votes w) <> [] ->
  fault env SelectRatings = Healthy ->
  fault env UpdateEntry <> Healthy ->
  updateChiliStats env c w
  = (Returns tt,
     log_console stats_failed
       (log_request UpdateEntry (log_request SelectRatings w))).
Proof.
  intros Hv Hs Hu.
  unfold updateChiliStats, try_catch, bind, await_request, read_only.
  rewrite Hs. cbn [data error votes log_request fst snd].
  rewrite (has_ratings _ _ Hv).
  destruct (fault env UpdateEntry); [congruence| |]; reflexivity.
Qed.

Lemma updateChiliStats_returns env c w :
  fst (updateChiliStats env c w) = Returns tt.
Proof.
  destruct (fault env SelectRatings) eqn:Hs.
  - destruct (votes_of c (votes w)) as [|v vs] eqn:Hv.
    + rewrite updateChiliStats_no_votes; auto.
    + assert (Hne : votes_of c (votes w) <> []) by (rewrite Hv; discriminate).
      destruct (fault env UpdateEntry) eqn:Hu.
      * rewrite updateChiliStats_healthy; auto.
      * rewrite updateChiliStats_update_failed; auto. congruence.
      * rewrite updateChiliStats_update_failed; auto. congruence.
  - rewrite updateChiliStats_select_failed; auto. congruence.
  - rewrite updateChiliStats_select_failed; auto. congruence.
Qed.

Lemma updateChiliStats_admin_session env c w :
  admin_session (snd (updateChiliStats env c w)) = admin_session w.
Proof.
  destruct (fault env SelectRatings) eqn:Hs.
  - destruct (votes_of c (votes w)) as [|v vs] eqn:Hv.
    + rewrite updateChiliStats_no_votes; auto.
    + assert (Hne : votes_of c (votes w) <> []) by (rewrite Hv; discriminate).
      destruct (fault env UpdateEntry) eqn:Hu.
      * rewrite updateChiliStats_healthy; auto.
      * rewrite updateChiliStats_update_failed; auto. congruence.
      * rewrite updateChiliStats_update_failed; auto. congruence.
  - rewrite updateChiliStats_select_failed; auto. congruence.
  - rewrite updateChiliStats_select_failed; auto. congruence.
Qed.

Lemma find_entry_update_other E c n t a es :
  E <> c -> find_entry E (update_entries c n t a es) = find_entry E es.
Proof.
  intros Hne. unfold find_entry, update_entries.
  induction es as [|e es IH]; cbn; [reflexivity|].
  destruct (String.eqb_spec (id e) c) as [Hc|Hc]; cbn.
  - destruct (String.eqb_spec (id e) E) as [HE|HE]; [congruence|].
    apply IH.
  - destruct (String.eqb (id e) E); [reflexivity|apply IH].
Qed.

Lemma find_entry_update_same E n t a es e0 :
  find_entry E es = Some e0 ->
  find_entry E (update_entries E n t a es)
  = Some {| id := id e0; vote_count := n; total_score := t;
            average_rating := a |}.
Proof.
  unfold find_entry, update_entries.
  induction es as [|e es IH]; cbn; [discriminate|].
  destruct (String.eqb (id e) E) eqn:HE; cbn.
  - rewrite HE. intros Heq. inversion Heq; subst. reflexivity.
  - rewrite HE. apply IH.
Qed.

Lemma find_entry_recomputed E vs es e0 :
  find_entry E es = Some e0 ->
  find_entry E (recomputed E vs es)
  = Some (stats_entry (id e0) (map overall_rating (votes_of E vs))).
Proof. intros H. unfold recomputed. apply find_entry_update_same, H. Qed.

Lemma find_entry_recomputed_other E c vs es :
  E <> c -> find_entry E (recomputed c vs es) = find_entry E es.
Proof. intros H. unfold recomputed. apply find_entry_update_other, H. Qed.

(** ** The recorder *)

Lemma submitVote_stages env vote w :
  submitVote env vote w
  = try_catch (bypass_or_validate env vote ;;; insert_then_recompute env vote)
      rethrow w.
Proof.
  unfold submitVote, bypass_or_validate, insert_then_recompute, try_catch,
    bind.
  destruct (AdminAuth.isAuthenticated env w) as [[b|e] w1]; reflexivity.
Qed.

Lemma try_catch_seq {A B} (m : Async A) (k : Async B) h w :
  try_catch (m ;;; k) h w
  = match m w with
    | (Returns _, w1) => try_catch k h w1
    | (Throws e, w1) => h e w1
    end.
Proof. unfold try_catch, bind. destruct (m w) as [[a|e] w1]; reflexivity. Qed.

Lemma bypass_or_validate_cases env vote w :
  let r := bypass_or_validate env vote w in
  votes (snd r) = votes w
  /\ chili_entries (snd r) = chili_entries w
  /\ (exists l, requests (snd r) = requests w ++ l
                /\ forallb is_lookup l = true)
  /\ (fst r = Returns tt
      \/ exists msg, fst r = Throws (new_Error msg))
  /\ (fst (AdminAuth.isAuthenticated env w) = Returns true
      \/ truthy (deviceFingerprint vote) = false ->
      r = (Returns tt, snd (AdminAuth.isAuthenticated env w))).
Proof.
  unfold bypass_or_validate, bind.
  destruct (isAuthenticated_frame env w) as [[b Hb] [Hv [He [Hr Hw]]]].
  destruct (AdminAuth.isAuthenticated env w) as [o w1]. cbn in *. subst o.
  assert (Hnone : exists l, requests w1 = requests w ++ l
                            /\ forallb is_lookup l = true).
  { exists []. rewrite app_nil_r. auto. }
  destruct (deviceFingerprint vote) as [fp|] eqn:Hfp; cbn [ret fst snd];
    [|intuition auto].
  destruct (negb b && truthy (Some fp)) eqn:Hgo; cbn [ret fst snd].
  - destruct (validateVote_frame env (chiliId vote) (sessionId vote) fp
                (ipAddress vote) w1) as [[v Hres] [Hv' [He' [_ [l [Hr' Hl]]]]]].
    destruct (validateVote _ _ _ _ _ w1) as [o w2]. cbn in *. subst o.
    destruct (allowed v); cbn.
    + repeat split; try congruence.
      * exists l. split; [congruence|assumption].
      * left; reflexivity.
      * intros [Hadm|Hfalsy].
        -- inversion Hadm; subst. discriminate.
        -- rewrite Hfalsy, andb_false_r in Hgo. discriminate.
    + repeat split; try congruence.
      * exists l. split; [congruence|assumption].
      * right. eexists. reflexivity.
      * intros [Hadm|Hfalsy].
        -- inversion Hadm; subst. discriminate.
        -- rewrite Hfalsy, andb_false_r in Hgo. discriminate.
  - intuition auto.
Qed.

Lemma bypass_or_validate_admin_session env vote w :
  admin_session (snd (bypass_or_validate env vote w))
  = admin_session (snd (AdminAuth.isAuthenticated env w)).
Proof.
  unfold bypass_or_validate, bind.
  destruct (isAuthenticated_frame env w) as [[b Hb] _].
  destruct (AdminAuth.isAuthenticated env w) as [o w1]. cbn in *. subst o.
  destruct (deviceFingerprint vote) as [fp|]; [|reflexivity].
  destruct (negb b && truthy (Some fp)); [|reflexivity].
  destruct (validateVote_frame env (chiliId vote) (sessionId vote) fp
              (ipAddress vote) w1) as [[v Hres] [_ [_ [Ha _]]]].
  destruct (validateVote _ _ _ _ _ w1) as [o w2]. cbn in *. subst o.
  destruct (allowed v); cbn; assumption.
Qed.

Lemma bypass_or_validate_identity env v v' w :
  same_identity v v' ->
  bypass_or_validate env v w = bypass_or_validate env v' w.
Proof.
  intros [Hc [Hs [Hf Hi]]]. unfold bypass_or_validate.
  rewrite Hc, Hs, Hf, Hi. reflexivity.
Qed.

Lemma votes_of_row env vote :
  votes_of (chiliId vote) [vote_row env vote] = [vote_row env vote].
Proof. unfold votes_of. cbn. rewrite String.eqb_refl. reflexivity. Qed.

Lemma votes_of_inserted env vote vs :
  votes_of (chiliId vote) (vs ++ [vote_row env vote]) <> [].
Proof.
  rewrite votes_of_app, votes_of_row. intros H.
  apply app_eq_nil in H as [_ H]. discriminate.
Qed.

Lemma votes_of_other_row E env vote vs :
  chiliId vote <> E ->
  votes_of E (vs ++ [vote_row env vote]) = votes_of E vs.
Proof.
  intros Hne. rewrite votes_of_app. unfold votes_of at 2. cbn.
  destruct (String.eqb_spec (chiliId vote) E); [contradiction|].
  apply app_nil_r.
Qed.

Lemma submitVote_cases env vote w :
  exists w1 l,
    votes w1 = votes w
    /\ chili_entries w1 = chili_entries w
    /\ requests w1 = requests w ++ l
    /\ forallb is_lookup l = true
    /\ (bypassed env vote w -> l = [])
    /\ ((~ bypassed env vote w
         /\ exists msg,
              submitVote env vote w
              = (Throws (new_Error msg), log_console submit_failed w1))
        \/ (fault env InsertVote <> Healthy
            /\ exists e,
                 submitVote env vote w
                 = (Throws e,
                    log_console submit_failed (log_request InsertVote w1)))
        \/ (fault env InsertVote = Healthy
            /\ submitVote env vote w
               = updateChiliStats env (chiliId vote)
                   (set_votes (votes w1 ++ [vote_row env vote])
                      (log_request InsertVote w1)))).
Proof.
  rewrite submitVote_stages, try_catch_seq.
  destruct (bypass_or_validate_cases env vote w)
    as [Hv [He [[l [Hr Hl]] [Hout Hby]]]].
  destruct (bypass_or_validate env vote w) as [o w1]. cbn [fst snd] in *.
  exists w1, l. repeat (split; [assumption|]).
  split.
  { intros Hb. specialize (Hby Hb). inversion Hby; subst.
    destruct (isAuthenticated_frame env w) as [_ [_ [_ [Hreq _]]]].
    rewrite Hreq in Hr. 
    apply (f_equal (@List.length _)) in Hr. rewrite length_app in Hr.
    destruct l; [reflexivity|cbn in Hr; lia]. }
  destruct Hout as [->|[msg ->]].
  - right.
    unfold try_catch, insert_then_recompute, bind, await_request.
    destruct (fault env InsertVote) as [|e|e] eqn:Hi.
    + right. split; [reflexivity|]. cbn [error].
      pose proof (updateChiliStats_returns env (chiliId vote)
                    (set_votes (votes (log_request InsertVote w1) ++ [vote_row env vote])
                       (log_request InsertVote w1))) as Hret.
      destruct (updateChiliStats _ _ _) as [o2 w2]. cbn in Hret. subst o2.
      reflexivity.
    + left. split; [discriminate|]. cbn.
      destruct (instanceof_Error e); eexists; reflexivity.
    + left. split; [discriminate|]. cbn.
      destruct (instanceof_Error e); eexists; reflexivity.
  - left. split.
    + intros Hb. specialize (Hby Hb). discriminate.
    + exists msg. reflexivity.
Qed.

Lemma submitVote_run env vote w :
  let r := submitVote env vote w in
  let row := vote_row env vote in
  exists l,
    forallb is_lookup l = true
    /\ (bypassed env vote w -> l = [])
    /\ ((~ bypassed env vote w
         /\ (exists msg, fst r = Throws (new_Error msg))
         /\ votes (snd r) = votes w
         /\ chili_entries (snd r) = chili_entries w
         /\ requests (snd r) = requests w ++ l)
        \/ (fault env InsertVote <> Healthy
            /\ (exists e, fst r = Throws e)
            /\ votes (snd r) = votes w
            /\ chili_entries (snd r) = chili_entries w
            /\ requests (snd r) = requests w ++ l ++ [InsertVote])
        \/ (fault env InsertVote = Healthy
            /\ fault env SelectRatings = Healthy
            /\ fault env UpdateEntry = Healthy
            /\ fst r = Returns tt
            /\ votes (snd r) = votes w ++ [row]
            /\ chili_entries (snd r)
               = recomputed (chiliId vote) (votes w ++ [row])
                   (chili_entries w)
            /\ requests (snd r)
               = requests w ++ l ++ [InsertVote; SelectRatings; UpdateEntry])
        \/ (fault env InsertVote = Healthy
            /\ (fault env SelectRatings <> Healthy
                \/ fault env UpdateEntry <> Healthy)
            /\ fst r = Returns tt
            /\ votes (snd r) = votes w ++ [row]
            /\ chili_entries (snd r) = chili_entries w
            /\ (exists logs, console (snd r) = logs ++ [stats_failed])
            /\ (requests (snd r)
                = requests w ++ l ++ [InsertVote; SelectRatings]
                \/ requests (snd r)
                   = requests w ++ l
                     ++ [InsertVote; SelectRatings; UpdateEntry]))).
Proof.
  cbv zeta.
  destruct (submitVote_cases env vote w)
    as [w1 [l [Hv [He [Hr [Hl [Hby H]]]]]]].
  exists l. split; [assumption|]. split; [assumption|].
  destruct H as [[Hnb [msg ->]]|[[Hf [e ->]]|[Hok ->]]].
  - left. cbn. eauto 10.
  - right; left. cbn. rewrite Hr, <- app_assoc. eauto 10.
  - right; right.
    set (w2 := set_votes (votes w1 ++ [vote_row env vote])
                 (log_request InsertVote w1)).
    assert (Hne : votes_of (chiliId vote) (votes w2) <> [])
      by apply votes_of_inserted.
    destruct (fault env SelectRatings) eqn:Hs.
    + destruct (fault env UpdateEntry) eqn:Hu.
      * left. rewrite updateChiliStats_healthy by assumption. cbn.
        rewrite Hv, He, Hr, <- !app_assoc. auto 10.
      * right. rewrite updateChiliStats_update_failed by (auto; congruence).
        cbn. rewrite Hv, He, Hr, <- !app_assoc.
        repeat split; auto; [right; discriminate|eauto].
      * right. rewrite updateChiliStats_update_failed by (auto; congruence).
        cbn. rewrite Hv, He, Hr, <- !app_assoc.
        repeat split; auto; [right; discriminate|eauto].
    + right. rewrite updateChiliStats_select_failed by congruence. cbn.
      rewrite Hv, He, Hr, <- !app_assoc.
      repeat split; auto; [left; discriminate|eauto].
    + right. rewrite updateChiliStats_select_failed by congruence. cbn.
      rewrite Hv, He, Hr, <- !app_assoc.
      repeat split; auto; [left; discriminate|eauto].
Qed.

Lemma submitVote_admin_session env vote w :
  admin_session (snd (submitVote env vote w))
  = admin_session (snd (AdminAuth.isAuthenticated env w)).
Proof.
  rewrite submitVote_stages, try_catch_seq.
  rewrite <- (bypass_or_validate_admin_session env vote w).
  destruct (bypass_or_validate env vote w) as [[[]|e] w1]; cbn [snd].
  - unfold try_catch, insert_then_recompute, bind, await_request.
    destruct (fault env InsertVote) as [|e|e]; cbn [error].
    + pose proof (updateChiliStats_returns env (chiliId vote)
                    (set_votes (votes (log_request InsertVote w1)
                                ++ [vote_row env vote])
                       (log_request InsertVote w1))) as Hret.
      pose proof (updateChiliStats_admin_session env (chiliId vote)
                    (set_votes (votes (log_request InsertVote w1)
                                ++ [vote_row env vote])
                       (log_request InsertVote w1))) as Hadm.
      destruct (updateChiliStats _ _ _) as [o2 w2]. cbn in *. subst o2.
      assumption.
    + cbn. destruct (instanceof_Error e); reflexivity.
    + cbn. destruct (instanceof_Error e); reflexivity.
  - cbn. destruct (instanceof_Error e); reflexivity.
Qed.

Lemma submitVote_ignores_ratings env v v' w :
  same_identity v v' ->
  fst (submitVote env v w) = fst (submitVote env v' w)
  /\ requests (snd (submitVote env v w))
     = requests (snd (submitVote env v' w)).
Proof.
  intros Hid.
  rewrite !submitVote_stages, !try_catch_seq.
  rewrite (bypass_or_validate_identity env v v' w Hid).
  destruct Hid as [Hc _].
  destruct (bypass_or_validate env v' w) as [[[]|e] w1]; [|split; reflexivity].
  unfold try_catch, insert_then_recompute, bind, await_request.
  destruct (fault env InsertVote) as [|e|e]; cbn [error];
    [|split; reflexivity|split; reflexivity].
  rewrite Hc.
  set (w2 := set_votes (votes (log_request InsertVote w1) ++ [vote_row env v])
               (log_request InsertVote w1)).
  set (w2' := set_votes (votes (log_request InsertVote w1) ++ [vote_row env v'])
                (log_request InsertVote w1)).
  assert (Hne : votes_of (chiliId v') (votes w2) <> [])
    by (rewrite <- Hc; apply votes_of_inserted).
  assert (Hne' : votes_of (chiliId v') (votes w2') <> [])
    by apply votes_of_inserted.
  destruct (fault env SelectRatings) eqn:Hs.
  - destruct (fault env UpdateEntry) eqn:Hu.
    + rewrite !updateChiliStats_healthy by assumption. split; reflexivity.
    + rewrite !updateChiliStats_update_failed by (auto; congruence).
      split; reflexivity.
    + rewrite !updateChiliStats_update_failed by (auto; congruence).
      split; reflexivity.
  - rewrite !updateChiliStats_select_failed by congruence. split; reflexivity.
  - rewrite !updateChiliStats_select_failed by congruence. split; reflexivity.
Qed.

Lemma submitVote_entries env vote w :
  chili_entries (snd (submitVote env vote w)) = chili_entries w
  \/ chili_entries (snd (submitVote env vote w))
     = recomputed (chiliId vote) (votes w ++ [vote_row env vote])
         (chili_entries w).
Proof.
  destruct (submitVote_run env vote w) as [l [_ [_ H]]].
  destruct H as [[_ [_ [_ [He _]]]]
                |[[_ [_ [_ [He _]]]]
                 |[[_ [_ [_ [_ [_ [He _]]]]]]
                  |[_ [_ [_ [_ [He _]]]]]]]]; auto.
Qed.

Lemma stats_entry_invariant key rs : average_invariant (stats_entry key rs).
Proof.
  intros _. unfold stats_entry. cbn. apply round_one_decimal_spec.
Qed.

Lemma recomputed_invariant c vs es :
  (forall e, In e es -> average_invariant e) ->
  forall e, In e (recomputed c vs es) -> average_invariant e.
Proof.
  intros Hall e Hin. unfold recomputed, update_entries in Hin.
  apply in_map_iff in Hin as [e0 [Heq Hin0]].
  destruct (String.eqb (id e0) c); subst e.
  - apply (stats_entry_invariant (id e0)
             (map overall_rating (votes_of c vs))).
  - apply Hall, Hin0.
Qed.

Lemma submitVote_invariant env vote w :
  (forall e, In e (chili_entries w) -> average_invariant e) ->
  forall e, In e (chili_entries (snd (submitVote env vote w))) ->
            average_invariant e.
Proof.
  intros Hall e.
  destruct (submitVote_entries env vote w) as [-> | ->]; [apply Hall|].
  apply recomputed_invariant, Hall.
Qed.

(** ** Sequences of submissions *)

Lemma submitVotes_cons env vote rest w :
  submitVotes ((env, vote) :: rest) w
  = (fst (submitVote env vote w)
       :: fst (submitVotes rest (snd (submitVote env vote w))),
     snd (submitVotes rest (snd (submitVote env vote w)))).
Proof.
  cbn. destruct (submitVote env vote w) as [o w1]. cbn.
  destruct (submitVotes rest w1) as [os w2]. reflexivity.
Qed.

Lemma accepted_ratings_all E steps :
  accepted_ratings E steps (all_accepted steps) = cast_for E steps.
Proof.
  unfold all_accepted, cast_for.
  induction steps as [|[env vote] rest IH]; cbn; [reflexivity|].
  destruct (String.eqb (chiliId vote) E); cbn; rewrite IH; reflexivity.
Qed.

Lemma some_cast E steps :
  (exists env vote, In (env, vote) steps /\ chiliId vote = E) ->
  cast_for E steps <> [].
Proof.
  intros [env [vote [Hin HE]]] Hnil. unfold cast_for in Hnil.
  apply map_eq_nil in Hnil.
  assert (Hf : In (env, vote)
                 (filter (fun s => String.eqb (chiliId (snd s)) E) steps)).
  { apply filter_In. split; [exact Hin|]. cbn. apply String.eqb_eq, HE. }
  rewrite Hnil in Hf. contradiction.
Qed.

Lemma run_aggregates E steps :
  forall w e0,
    (forall env vote, In (env, vote) steps ->
       fault env SelectRatings = Healthy /\ fault env UpdateEntry = Healthy) ->
    find_entry E (chili_entries w) = Some e0 ->
    let r := submitVotes steps w in
    let rs := accepted_ratings E steps (fst r) in
    ratings_of E (snd r) = ratings_of E w ++ rs
    /\ exists e,
         find_entry E (chili_entries (snd r)) = Some e
         /\ (rs = [] -> e = e0)
         /\ (rs <> [] -> e = stats_entry (id e0) (ratings_of E (snd r))).
Proof.
  induction steps as [|[env vote] rest IH]; intros w e0 Hhealthy Hfind;
    cbv zeta.
  - cbn. rewrite app_nil_r. split; [reflexivity|].
    exists e0. intuition congruence.
  - rewrite submitVotes_cons. cbn [fst snd].
    assert (Hrest : forall env' vote', In (env', vote') rest ->
              fault env' SelectRatings = Healthy
              /\ fault env' UpdateEntry = Healthy)
      by (intros env' vote' Hin; apply (Hhealthy env' vote');
          right; exact Hin).
    destruct (Hhealthy env vote (or_introl eq_refl)) as [Hs Hu].
    destruct (submitVote_run env vote w) as [l [_ [_ H]]].
    destruct H as [[_ [[msg Ho] [Hv [He _]]]]
                  |[[_ [[e Ho] [Hv [He _]]]]
                   |[[_ [_ [_ [Ho [Hv [He _]]]]]]
                    |[_ [[Hbad|Hbad] _]]]]]; try contradiction.
    + rewrite Ho. cbn [accepted_ratings].
      assert (Hr : ratings_of E (snd (submitVote env vote w)) = ratings_of E w)
        by (unfold ratings_of; rewrite Hv; reflexivity).
      rewrite <- Hr. apply IH; [assumption|]. rewrite He. assumption.
    + rewrite Ho. cbn [accepted_ratings].
      assert (Hr : ratings_of E (snd (submitVote env vote w)) = ratings_of E w)
        by (unfold ratings_of; rewrite Hv; reflexivity).
      rewrite <- Hr. apply IH; [assumption|]. rewrite He. assumption.
    + rewrite Ho. cbn [accepted_ratings].
      set (w1 := snd (submitVote env vote w)) in *.
      destruct (String.eqb_spec (chiliId vote) E) as [HE|HE].
      * subst E.
        assert (Hr : ratings_of (chiliId vote) w1
                     = ratings_of (chiliId vote) w ++ [overallRating vote]).
        { unfold ratings_of. rewrite Hv, votes_of_app, votes_of_row, map_app.
          reflexivity. }
        assert (Hf1 : find_entry (chiliId vote) (chili_entries w1)
                      = Some (stats_entry (id e0) (ratings_of (chiliId vote) w1))).
        { rewrite He. unfold ratings_of. rewrite Hv.
          apply find_entry_recomputed. assumption. }
        destruct (IH w1 _ Hrest Hf1) as [Hrs [e [Hfe [Hnil Hcons]]]].
        split.
        { rewrite Hrs, Hr, <- app_assoc. reflexivity. }
        exists e. split; [assumption|]. split; [discriminate|].
        intros _.
        destruct (accepted_ratings (chiliId vote) rest _) eqn:Hacc.
        -- rewrite (Hnil eq_refl). rewrite Hrs, app_nil_r. reflexivity.
        -- apply Hcons. discriminate.
      * assert (Hr : ratings_of E w1 = ratings_of E w).
        { unfold ratings_of. rewrite Hv, votes_of_other_row by assumption.
          reflexivity. }
        rewrite <- Hr. apply IH; [assumption|].
        rewrite He, find_entry_recomputed_other by congruence. assumption.
Qed.

Lemma admin_run steps :
  forall w,
    (forall env vote, In (env, vote) steps ->
       fst (AdminAuth.isAuthenticated env w) = Returns true
       /\ fault env InsertVote = Healthy) ->
    let r := submitVotes steps w in
    fst r = all_accepted steps
    /\ votes (snd r)
       = votes w ++ map (fun s => vote_row (fst s) (snd s)) steps
    /\ admin_session (snd r) = admin_session w
    /\ exists sent, requests (snd r) = requests w ++ sent
                    /\ forallb (fun q => negb (is_lookup q)) sent = true.
Proof.
  induction steps as [|[env vote] rest IH]; intros w Hadmin; cbv zeta.
  - cbn. rewrite app_nil_r. repeat split.
    exists []. rewrite app_nil_r. split; reflexivity.
  - rewrite submitVotes_cons. cbn [fst snd].
    destruct (Hadmin env vote (or_introl eq_refl)) as [Hauth Hins].
    assert (Hby : bypassed env vote w) by (left; exact Hauth).
    assert (Hslot : admin_session (snd (submitVote env vote w))
                    = admin_session w).
    { rewrite submitVote_admin_session.
      destruct (isAuthenticated_frame env w) as [_ [_ [_ [_ Hsame]]]].
      rewrite (Hsame Hauth). reflexivity. }
    assert (Hrest : forall env' vote', In (env', vote') rest ->
              fst (AdminAuth.isAuthenticated env'
                     (snd (submitVote env vote w))) = Returns true
              /\ fault env' InsertVote = Healthy).
    { intros env' vote' Hin.
      destruct (Hadmin env' vote' (or_intror Hin)) as [Ha Hi].
      split; [|exact Hi].
      apply (isAuthenticated_same_slot env' w); assumption. }
    destruct (IH _ Hrest) as [Hos [Hvs [Hadm [sent [Hreq Hsent]]]]].
    destruct (submitVote_run env vote w) as [l [_ [Hnil H]]].
    specialize (Hnil Hby). subst l.
    assert (Hstep : fst (submitVote env vote w) = Returns tt
                    /\ votes (snd (submitVote env vote w))
                       = votes w ++ [vote_row env vote]
                    /\ exists sent0,
                         requests (snd (submitVote env vote w))
                         = requests w ++ sent0
                         /\ forallb (fun q => negb (is_lookup q)) sent0 = true).
    { destruct H as [[Hnb _]
                    |[[Hbad _]
                     |[[_ [_ [_ [Ho [Hv [_ Hr]]]]]]
                      |[_ [_ [Ho [Hv [_ [_ [Hr|Hr]]]]]]]]]];
        try contradiction;
        (split; [exact Ho|]; split; [exact Hv|]);
        eexists; (split; [exact Hr|reflexivity]). }
    destruct Hstep as [Ho [Hv [sent0 [Hr0 Hs0]]]].
    rewrite Ho, Hos, Hvs, Hv, Hadm, Hslot, Hreq, Hr0.
    cbn [all_accepted map fst snd]. rewrite <- !app_assoc. cbn [app].
    repeat split.
    exists (sent0 ++ sent). split; [reflexivity|].
    rewrite forallb_app, Hs0, Hsent. reflexivity.
Qed.

Lemma submitVotes_invariant steps :
  forall w,
    (forall e, In e (chili_entries w) -> average_invariant e) ->
    forall e, In e (chili_entries (snd (submitVotes steps w))) ->
              average_invariant e.
Proof.
  induction steps as [|[env vote] rest IH]; intros w Hall; [exact Hall|].
  rewrite submitVotes_cons. cbn [snd].
  apply IH, submitVote_invariant, Hall.
Qed.

(** While the admin session lasts no run sends a lookup, whether or not
    the inserts and the recomputes are served. *)
Lemma admin_run_sends_no_lookup steps :
  forall w,
    (forall env vote, In (env, vote) steps ->
       fst (AdminAuth.isAuthenticated env w) = Returns true) ->
    let r := submitVotes steps w in
    admin_session (snd r) = admin_session w
    /\ exists sent, requests (snd r) = requests w ++ sent
                    /\ forallb (fun q => negb (is_lookup q)) sent = true.
Proof.
  induction steps as [|[env vote] rest IH]; intros w Hadmin; cbv zeta.
  - cbn. split; [reflexivity|].
    exists []. rewrite app_nil_r. split; reflexivity.
  - rewrite submitVotes_cons. cbn [fst snd].
    pose proof (Hadmin env vote (or_introl eq_refl)) as Hauth.
    assert (Hby : bypassed env vote w) by (left; exact Hauth).
    assert (Hslot : admin_session (snd (submitVote env vote w))
                    = admin_session w).
    { rewrite submitVote_admin_session.
      destruct (isAuthenticated_frame env w) as [_ [_ [_ [_ Hsame]]]].
      rewrite (Hsame Hauth). reflexivity. }
    assert (Hrest : forall env' vote', In (env', vote') rest ->
              fst (AdminAuth.isAuthenticated env'
                     (snd (submitVote env vote w))) = Returns true).
    { intros env' vote' Hin.
      apply (isAuthenticated_same_slot env' w); [exact Hslot|].
      apply (Hadmin env' vote'). right. exact Hin. }
    destruct (IH _ Hrest) as [Hadm [sent [Hreq Hsent]]].
    destruct (submitVote_run env vote w) as [l [_ [Hnil H]]].
    specialize (Hnil Hby). subst l.
    assert (Hstep : exists sent0,
              requests (snd (submitVote env vote w)) = requests w ++ sent0
              /\ forallb (fun q => negb (is_lookup q)) sent0 = true).
    { destruct H as [[Hnb _]
                    |[[_ [_ [_ [_ Hr]]]]
                     |[[_ [_ [_ [_ [_ [_ Hr]]]]]]
                      |[_ [_ [_ [_ [_ [_ [Hr|Hr]]]]]]]]]];
        try contradiction;
        eexists; (split; [exact Hr|reflexivity]). }
    destruct Hstep as [sent0 [Hr0 Hs0]].
    split; [rewrite Hadm; exact Hslot|].
    exists (sent0 ++ sent). split.
    + rewrite Hreq, Hr0, <- app_assoc. reflexivity.
    + rewrite forallb_app, Hs0, Hsent. reflexivity.
Qed.

(** ** The vote schema *)

Lemma rating_issue_found path low high r :
  (r <? 1) || (5 <? r) = true ->
  Validation.rating_issues path low high r = [] -> False.
Proof.
  unfold Validation.rating_issues. intros H.
  destruct (r <? 1); [discriminate|].
  destruct (5 <? r); [discriminate|discriminate].
Qed.

Lemma schema_rejects_out_of_range is_uuid detect v :
  any_rating_out_of_range v = true ->
  Validation.voteSubmissionSchema is_uuid detect v <> [].
Proof.
  unfold any_rating_out_of_range, Validation.voteSubmissionSchema.
  intros H Hnil.
  apply app_eq_nil in Hnil as [_ Hnil].
  apply app_eq_nil in Hnil as [Ho Hnil].
  apply app_eq_nil in Hnil as [Ht Hnil].
  apply app_eq_nil in Hnil as [Hp Hnil].
  apply app_eq_nil in Hnil as [Hcr Hnil].
  apply app_eq_nil in Hnil as [Hsb _].
  apply orb_prop in H as [H|H]; [|exact (rating_issue_found _ _ _ _ H Hsb)].
  apply orb_prop in H as [H|H]; [|exact (rating_issue_found _ _ _ _ H Hcr)].
  apply orb_prop in H as [H|H]; [|exact (rating_issue_found _ _ _ _ H Hp)].
  apply orb_prop in H as [H|H]; [|exact (rating_issue_found _ _ _ _ H Ht)].
  exact (rating_issue_found _ _ _ _ H Ho).
Qed.

(** * The properties of the specification *)

(** ** C1: the ordered rule chain *)

Ltac trace_done :=
  cbn; split; [reflexivity|]; apply issued_app; cbn;
  rewrite <- ?app_assoc; reflexivity.

(** C1 as stated fails: the store holds a vote of session S1 for the
    entry, yet [validateVote] does not reject session S1 when the
    session lookup rejects; it logs the error and allows the vote. *)
Lemma session_check_lost_when_lookup_rejects :
  existsb (same_session "S1")
    (votes_of "texas-red" (votes after_first_vote)) = true
  /\ fst (validateVote session_lookup_rejects "texas-red" "S1" "F2" None
            after_first_vote)
     = Returns (mkValidation true None).
Proof. split; reflexivity. Qed.

(** C1, amended: when the three lookups are served and none of their
    filters selects more than one stored vote, [validateVote] returns the
    verdict of the ordered chain (a stored vote of the entry with the
    session id: "already voted"; else one with the fingerprint: "this
    device"; else, when a non-empty ipAddress is given, one from that
    address created within the last five minutes: "this network"; else
    accept), and it sends exactly the lookups up to the first check that
    finds a vote. *)
Theorem validateVote_chain env c s f ip w :
  fault env SessionLookup = Healthy ->
  fault env FingerprintLookup = Healthy ->
  fault env IpLookup = Healthy ->
  (List.length (filter (same_session s) (votes_of c (votes w))) <= 1)%nat ->
  (List.length (filter (same_device f) (votes_of c (votes w))) <= 1)%nat ->
  (forall i, ip = Some i ->
     (List.length (filter (same_network_recently i (now env))
                     (votes_of c (votes w))) <= 1)%nat) ->
  let r := validateVote env c s f ip w in
  fst r = Returns (chain_verdict (now env) (votes w) c s f ip)
  /\ issued w (snd r) = chain_requests (votes w) c s f ip.
Proof.
  intros Hs Hf Hi Ls Lf Li.
  unfold validateVote, try_catch, bind, await_request, read_only, ret,
    chain_verdict, chain_requests.
  rewrite Hs. cbn [votes log_request].
  rewrite session_rows_votes_of, (maybeSingle_found _ _ Ls).
  destruct (existsb (same_session s) _); [trace_done|].
  rewrite Hf. cbn [votes log_request].
  rewrite fingerprint_rows_votes_of, (maybeSingle_found _ _ Lf).
  destruct (existsb (same_device f) _); [trace_done|].
  destruct ip as [i|]; cbn [truthy]; [|trace_done].
  destruct (negb (String.eqb i "")) eqn:Hne; cbn [andb]; [|trace_done].
  rewrite Hi. cbn [votes log_request].
  rewrite ip_rows_votes_of, (maybeSingle_found _ _ (Li i eq_refl)).
  destruct (existsb _ _); trace_done.
Qed.

(** A second session on the device of the first vote is rejected at the
    device check, after two lookups. *)
Lemma validateVote_chain_witness :
  fst (validateVote later "texas-red" "S2" "F1" (Some "10.0.0.7")
         after_first_vote)
  = Returns (mkValidation false (Some device_voted))
  /\ issued after_first_vote
       (snd (validateVote later "texas-red" "S2" "F1" (Some "10.0.0.7")
               after_first_vote))
     = [SessionLookup; FingerprintLookup].
Proof.
  apply (validateVote_chain later "texas-red" "S2" "F1" (Some "10.0.0.7")
           after_first_vote);
    try reflexivity; cbn; lia.
Defined.

(** What the amended statement leaves out: once one identity has two
    stored votes for the entry, [maybeSingle] reports an error without
    data and both checks let a third vote of that identity through. *)
Lemma repeated_votes_pass_the_checks :
  fst (validateVote later "texas-red" "S1" "F1" None voted_twice)
  = Returns (mkValidation true None).
Proof. reflexivity. Qed.

(** ** C2: submissions without a fingerprint *)

(** C2 as stated fails: a visitor who is no admin and has no fingerprint
    votes a second time for the same entry with the same sessionId, and
    the vote is taken: no session check runs. *)
Lemma second_vote_without_fingerprint_accepted :
  fst (AdminAuth.isAuthenticated later after_qr_vote) = Returns false
  /\ deviceFingerprint qr_ballot = None
  /\ existsb (same_session (sessionId qr_ballot))
       (votes_of (chiliId qr_ballot) (votes after_qr_vote)) = true
  /\ fst (submitVote later qr_ballot after_qr_vote) = Returns tt
  /\ issued after_qr_vote (snd (submitVote later qr_ballot after_qr_vote))
     = [InsertVote; SelectRatings; UpdateEntry].
Proof. repeat split. Qed.

(** C2, amended: for a submission whose deviceFingerprint is undefined
    (or empty) [submitVote] does not run the validator at all: it sends
    no session, fingerprint or IP lookup, and when the insert is served
    the call returns with the vote stored. *)
Theorem no_fingerprint_skips_validator env vote w :
  truthy (deviceFingerprint vote) = false ->
  let r := submitVote env vote w in
  (forall q, In q (issued w (snd r)) -> is_lookup q = false)
  /\ (fault env InsertVote = Healthy ->
      fst r = Returns tt
      /\ votes (snd r) = votes w ++ [vote_row env vote]).
Proof.
  intros Hfp. cbv zeta.
  assert (Hby : bypassed env vote w) by (right; assumption).
  destruct (submitVote_run env vote w) as [l [Hl [Hnil H]]].
  specialize (Hnil Hby). subst l. cbn [app] in H.
  destruct H as [[Hnb _]
                |[[Hbad [_ [_ [_ Hi]]]]
                 |[[Hok [_ [_ [Hret [Hv [_ Hi]]]]]]
                  |[Hok [_ [Hret [Hv [_ [_ Hi]]]]]]]]].
  - contradiction.
  - rewrite (issued_app _ _ _ Hi). split; [|contradiction].
    intros q [<-|[]]; reflexivity.
  - rewrite (issued_app _ _ _ Hi). split; [|auto].
    intros q [<-|[<-|[<-|[]]]]; reflexivity.
  - split; [|auto].
    destruct Hi as [Hi|Hi]; rewrite (issued_app _ _ _ Hi).
    + intros q [<-|[<-|[]]]; reflexivity.
    + intros q [<-|[<-|[<-|[]]]]; reflexivity.
Qed.

Lemma no_fingerprint_skips_validator_witness :
  (forall q,
     In q (issued after_qr_vote
             (snd (submitVote later qr_ballot after_qr_vote))) ->
     is_lookup q = false)
  /\ (fault later InsertVote = Healthy ->
      fst (submitVote later qr_ballot after_qr_vote) = Returns tt
      /\ votes (snd (submitVote later qr_ballot after_qr_vote))
         = votes after_qr_vote ++ [vote_row later qr_ballot]).
Proof.
  apply (no_fingerprint_skips_validator later qr_ballot after_qr_vote).
  reflexivity.
Defined.

(** ** C3: the aggregates of an entry *)

(** C3 as stated fails: the first vote for the entry is accepted, but
    the read of the ratings rejects; the error is logged and the entry
    keeps vote_count 0 with one accepted vote. *)
Lemma stats_lag_when_recompute_fails :
  fst (submitVote select_rejects first_ballot opening) = Returns tt
  /\ accepted_ratings "texas-red" [(select_rejects, first_ballot)]
       [fst (submitVote select_rejects first_ballot opening)] = [5]
  /\ find_entry "texas-red"
       (chili_entries (snd (submitVote select_rejects first_ballot opening)))
     = Some texas_red
  /\ vote_count texas_red = 0.
Proof. repeat split. Qed.

(** C3, amended: start from an entry E without votes and run any
    sequence of submissions.  If the statistics requests (the read of
    the ratings and the update of the entry) are served, then with
    r1..rN the ratings of the accepted submissions for E and N >= 1 the
    entry has vote_count = N, total_score = r1 + ... + rN and
    average_rating = the mean rounded to one decimal place, hence
    average_rating = round (total_score / vote_count, 1); with N = 0 the
    entry is as it was.  Whether or not these requests are served, the
    invariant average_rating = round (total_score / vote_count, 1) for
    vote_count > 0 passes from the entries before the run to the entries
    after it. *)
Theorem aggregate_correctness steps w E e0 :
  votes_of E (votes w) = [] ->
  find_entry E (chili_entries w) = Some e0 ->
  let r := submitVotes steps w in
  let rs := accepted_ratings E steps (fst r) in
  ((forall env vote, In (env, vote) steps ->
      fault env SelectRatings = Healthy /\ fault env UpdateEntry = Healthy) ->
   exists e,
     find_entry E (chili_entries (snd r)) = Some e
     /\ (rs = [] -> e = e0)
     /\ (rs <> [] ->
         aggregates_match rs e
         /\ rounds_to_one_decimal
              (inject_Z (total_score e) / inject_Z (vote_count e))
              (average_rating e)))
  /\ ((forall e, In e (chili_entries w) -> average_invariant e) ->
      forall e, In e (chili_entries (snd r)) -> average_invariant e).
Proof.
  intros Hnone Hfind. cbv zeta. split; [|apply submitVotes_invariant].
  intros Hhealthy.
  destruct (run_aggregates E steps w e0 Hhealthy Hfind)
    as [Hrs [e [Hfe [Hnil Hcons]]]].
  unfold ratings_of at 2 in Hrs. rewrite Hnone in Hrs. cbn in Hrs.
  exists e. split; [exact Hfe|]. split; [exact Hnil|].
  intros Hne. specialize (Hcons Hne). rewrite Hrs in Hcons.
  assert (Hm : aggregates_match
                 (accepted_ratings E steps (fst (submitVotes steps w))) e)
    by (rewrite Hcons; apply stats_entry_matches).
  split; [exact Hm|].
  destruct Hm as [Hc [Ht Hr]]. rewrite Hc, Ht. exact Hr.
Qed.

(** The scenario of the specification: two of the four submissions are
    accepted, with ratings 5 and 3. *)
Lemma aggregate_correctness_witness :
  accepted_ratings "texas-red" texas_red_scenario
    (fst (submitVotes texas_red_scenario opening)) = [5; 3]
  /\ exists e,
       find_entry "texas-red"
         (chili_entries (snd (submitVotes texas_red_scenario opening)))
       = Some e
       /\ aggregates_match [5; 3] e.
Proof.
  split; [reflexivity|].
  destruct (aggregate_correctness texas_red_scenario opening "texas-red"
              texas_red eq_refl eq_refl) as [Hserved _].
  destruct Hserved as [e [Hfe [_ Hm]]].
  - intros env vote Hin. cbn in Hin.
    repeat (destruct Hin as [Hin|Hin];
            [inversion Hin; subst; split; reflexivity|]).
    contradiction.
  - exists e. split; [exact Hfe|]. apply Hm. discriminate.
Defined.

(** ** C4: failing lookups *)

(** C4 at the failing input: the session lookup resolves with an
    error and no data; [validateVote] takes it for "no such vote", goes
    on to the device check and rejects the vote instead of allowing
    it. *)
Theorem validateVote_error_result_not_fail_open :
  fault session_lookup_errors SessionLookup
  = ErrorResult service_unavailable
  /\ fst (validateVote session_lookup_errors "texas-red" "S2" "F1" None
            after_first_vote)
     = Returns (mkValidation false (Some device_voted)).
Proof. split; reflexivity. Qed.

(** ** C5: a failing insert *)

(** C5: when the insert of the vote row fails (resolves with an error
    or rejects), [submitVote] throws, the stored votes and the entries
    are as before, and neither the read of the ratings nor the update of
    the entry is sent: the statistics maintainer is not invoked. *)
Theorem insert_failure_fails_submission env vote w :
  fault env InsertVote <> Healthy ->
  let r := submitVote env vote w in
  (exists e, fst r = Throws e)
  /\ votes (snd r) = votes w
  /\ chili_entries (snd r) = chili_entries w
  /\ ~ In SelectRatings (issued w (snd r))
  /\ ~ In UpdateEntry (issued w (snd r)).
Proof.
  intros Hins. cbv zeta.
  destruct (submitVote_run env vote w) as [l [Hl [_ H]]].
  destruct H as [[_ [Hthrow [Hv [He Hi]]]]
                |[[_ [Hthrow [Hv [He Hi]]]]
                 |[[Hok _]|[Hok _]]]]; try contradiction.
  - rewrite (issued_app _ _ _ Hi). destruct Hthrow as [msg Hthrow].
    refine (conj (ex_intro _ _ Hthrow) (conj Hv (conj He (conj _ _))));
      intros Hin; apply (lookups_only _ _ Hl) in Hin; discriminate.
  - rewrite (issued_app _ _ _ Hi).
    refine (conj Hthrow (conj Hv (conj He (conj _ _))));
      apply not_lookup_app; auto; cbn; intuition discriminate.
Qed.

Lemma insert_failure_fails_submission_witness :
  (exists e, fst (submitVote insert_errors first_ballot opening) = Throws e)
  /\ votes (snd (submitVote insert_errors first_ballot opening))
     = votes opening
  /\ chili_entries (snd (submitVote insert_errors first_ballot opening))
     = chili_entries opening
  /\ ~ In SelectRatings
         (issued opening (snd (submitVote insert_errors first_ballot opening)))
  /\ ~ In UpdateEntry
         (issued opening (snd (submitVote insert_errors first_ballot opening))).
Proof.
  apply (insert_failure_fails_submission insert_errors first_ballot opening).
  cbn. discriminate.
Defined.

(** ** C6: a failing recompute *)

(** C6: when the insert of the vote row was sent and served, and then
    the read of the ratings or the update of the entry fails,
    [submitVote] still returns: the vote is stored, the entries are as
    before, and the last thing on the console is the error of the
    statistics update. *)
Theorem recompute_failure_not_propagated env vote w :
  fault env InsertVote = Healthy ->
  In InsertVote (issued w (snd (submitVote env vote w))) ->
  fault env SelectRatings <> Healthy \/ fault env UpdateEntry <> Healthy ->
  let r := submitVote env vote w in
  fst r = Returns tt
  /\ votes (snd r) = votes w ++ [vote_row env vote]
  /\ chili_entries (snd r) = chili_entries w
  /\ exists logs, console (snd r) = logs ++ [stats_failed].
Proof.
  intros Hok Hreached Hfails. cbv zeta.
  destruct (submitVote_run env vote w) as [l [Hl [_ H]]].
  destruct H as [[_ [_ [_ [_ Hi]]]]
                |[[Hbad _]
                 |[[_ [Hs [Hu _]]]
                  |[_ [_ [Hret [Hv [He [Hlog _]]]]]]]]].
  - rewrite (issued_app _ _ _ Hi) in Hreached.
    apply (lookups_only _ _ Hl) in Hreached. discriminate.
  - contradiction.
  - destruct Hfails; contradiction.
  - auto.
Qed.

Lemma recompute_failure_not_propagated_witness :
  fst (submitVote select_rejects first_ballot opening) = Returns tt
  /\ votes (snd (submitVote select_rejects first_ballot opening))
     = votes opening ++ [vote_row select_rejects first_ballot]
  /\ chili_entries (snd (submitVote select_rejects first_ballot opening))
     = chili_entries opening
  /\ exists logs,
       console (snd (submitVote select_rejects first_ballot opening))
       = logs ++ [stats_failed].
Proof.
  apply (recompute_failure_not_propagated select_rejects first_ballot
           opening).
  - reflexivity.
  - cbn. auto.
  - left. cbn. discriminate.
Defined.

(** ** C7: the admin bypass *)

(** C7: let [isAuthenticated] return true for every submission of a run
    (the run leaves the admin session as it is, so this is its answer at
    each submission time).  Then no session, fingerprint or IP lookup is
    sent during the run; when the inserts are served every submission
    returns and every vote is stored, also N > 1 votes of one identity
    for one entry; and when the statistics requests are served as well,
    the aggregates of an entry voted for are those of all its stored
    ratings, the old ones and the N new ones. *)
Theorem admin_bypass steps w E e0 :
  (forall env vote, In (env, vote) steps ->
     fst (AdminAuth.isAuthenticated env w) = Returns true) ->
  let r := submitVotes steps w in
  admin_session (snd r) = admin_session w
  /\ (forall q, In q (issued w (snd r)) -> is_lookup q = false)
  /\ ((forall env vote, In (env, vote) steps ->
         fault env InsertVote = Healthy) ->
      fst r = all_accepted steps
      /\ votes (snd r)
         = votes w ++ map (fun s => vote_row (fst s) (snd s)) steps)
  /\ ((forall env vote, In (env, vote) steps ->
         fault env InsertVote = Healthy
         /\ fault env SelectRatings = Healthy
         /\ fault env UpdateEntry = Healthy) ->
      find_entry E (chili_entries w) = Some e0 ->
      (exists env vote, In (env, vote) steps /\ chiliId vote = E) ->
      exists e,
        find_entry E (chili_entries (snd r)) = Some e
        /\ aggregates_match (ratings_of E w ++ cast_for E steps) e).
Proof.
  intros Hauth. cbv zeta.
  destruct (admin_run_sends_no_lookup steps w Hauth)
    as [Hslot [sent [Hreq Hsent]]].
  split; [exact Hslot|]. split.
  { rewrite (issued_app w _ sent Hreq). intros q Hin.
    rewrite forallb_forall in Hsent. specialize (Hsent q Hin).
    destruct (is_lookup q); [discriminate|reflexivity]. }
  split.
  - intros Hins.
    assert (Hgate : forall env vote, In (env, vote) steps ->
              fst (AdminAuth.isAuthenticated env w) = Returns true
              /\ fault env InsertVote = Healthy)
      by (intros env vote Hin; split;
          [apply (Hauth env vote Hin)|apply (Hins env vote Hin)]).
    destruct (admin_run steps w Hgate) as [Hos [Hvs _]].
    split; assumption.
  - intros Hserved Hfind Hsome.
    assert (Hgate : forall env vote, In (env, vote) steps ->
              fst (AdminAuth.isAuthenticated env w) = Returns true
              /\ fault env InsertVote = Healthy)
      by (intros env vote Hin; split;
          [apply (Hauth env vote Hin)|apply (Hserved env vote Hin)]).
    assert (Hhealthy : forall env vote, In (env, vote) steps ->
              fault env SelectRatings = Healthy
              /\ fault env UpdateEntry = Healthy)
      by (intros env vote Hin; apply (Hserved env vote Hin)).
    destruct (admin_run steps w Hgate) as [Hos _].
    destruct (run_aggregates E steps w e0 Hhealthy Hfind)
      as [Hrs [e [Hfe [_ Hcons]]]].
    rewrite Hos, accepted_ratings_all in Hrs, Hcons.
    exists e. split; [exact Hfe|].
    rewrite (Hcons (some_cast E steps Hsome)), Hrs.
    apply stats_entry_matches.
Qed.

(** The admin votes three times for one entry with one session and one
    fingerprint; the three votes are stored and counted. *)
Lemma admin_bypass_witness :
  (forall q,
     In q (issued admin_logged_in
             (snd (submitVotes admin_votes admin_logged_in))) ->
     is_lookup q = false)
  /\ fst (submitVotes admin_votes admin_logged_in)
     = [Returns tt; Returns tt; Returns tt]
  /\ exists e,
       find_entry "texas-red"
         (chili_entries (snd (submitVotes admin_votes admin_logged_in)))
       = Some e
       /\ aggregates_match [5; 5; 5] e.
Proof.
  assert (Hserved : forall env vote, In (env, vote) admin_votes ->
            fault env InsertVote = Healthy
            /\ fault env SelectRatings = Healthy
            /\ fault env UpdateEntry = Healthy).
  { intros env vote Hin. cbn in Hin.
    repeat (destruct Hin as [Hin|Hin];
            [inversion Hin; subst; repeat split; reflexivity|]).
    contradiction. }
  destruct (admin_bypass admin_votes admin_logged_in "texas-red" texas_red)
    as [_ [Hnone [Hall Hagg]]].
  - intros env vote Hin. cbn in Hin.
    repeat (destruct Hin as [Hin|Hin];
            [inversion Hin; subst; reflexivity|]).
    contradiction.
  - split; [exact Hnone|]. split.
    + apply Hall. intros env vote Hin. apply (Hserved env vote Hin).
    + apply (Hagg Hserved eq_refl).
      exists later, first_ballot. split; [left|]; reflexivity.
Defined.

(** ** C8: ratings out of range *)

(** C8 as stated fails: a ballot with nine stars passes through the
    duplicate checks and is stored and counted when its identity is new,
    and is turned down by the session check, not by a validation of its
    ratings, when its session has voted. *)
Lemma out_of_range_rating_reaches_the_checks :
  any_rating_out_of_range nine_star_ballot = true
  /\ fst (submitVote later nine_star_ballot opening) = Returns tt
  /\ issued opening (snd (submitVote later nine_star_ballot opening))
     = [SessionLookup; FingerprintLookup; InsertVote; SelectRatings;
        UpdateEntry]
  /\ ratings_of "texas-red" (snd (submitVote later nine_star_ballot opening))
     = [9]
  /\ fst (submitVote later nine_star_ballot after_first_vote)
     = Throws (new_Error already_voted).
Proof. repeat split. Qed.

(** C8, amended: a submission with a rating outside [1,5] is rejected by
    [voteSubmissionSchema] (through [validateOrThrow]) with a validation
    error and without any request to the store; [submitVote] does not
    apply the schema and treats the ratings as payload: it returns or
    throws, and sends the same requests, as it does for the submission
    of the same identity with any other ratings. *)
Theorem ratings_checked_by_schema_only is_uuid detect env v v' w :
  any_rating_out_of_range v = true ->
  same_identity v v' ->
  Validation.validateOrThrow
    (Validation.voteSubmissionSchema is_uuid detect) v w
  = (Throws (new_Error "Validation failed"), w)
  /\ fst (submitVote env v w) = fst (submitVote env v' w)
  /\ issued w (snd (submitVote env v w))
     = issued w (snd (submitVote env v' w)).
Proof.
  intros Hbad Hid. split.
  - unfold Validation.validateOrThrow.
    pose proof (schema_rejects_out_of_range is_uuid detect v Hbad) as Hne.
    destruct (Validation.voteSubmissionSchema is_uuid detect v);
      [contradiction|reflexivity].
  - destruct (submitVote_ignores_ratings env v v' w Hid) as [Ho Hr].
    split; [exact Ho|]. unfold issued. rewrite Hr. reflexivity.
Qed.

Lemma ratings_checked_by_schema_only_witness :
  Validation.validateOrThrow
    (Validation.voteSubmissionSchema (fun _ => true) (fun _ => false))
    nine_star_ballot opening
  = (Throws (new_Error "Validation failed"), opening)
  /\ fst (submitVote later nine_star_ballot opening)
     = fst (submitVote later first_ballot opening)
  /\ issued opening (snd (submitVote later nine_star_ballot opening))
     = issued opening (snd (submitVote later first_ballot opening)).
Proof.
  apply (ratings_checked_by_schema_only (fun _ => true) (fun _ => false)
           later nine_star_ballot first_ballot opening).
  - reflexivity.
  - repeat split.
Defined.

(** ** C9: independence of entries *)

(** C9: a stored vote [v1] for another entry never changes what
    [validateVote] answers for entry E2: the verdict and the lookups
    sent are those of the store without [v1], whatever the identity and
    whatever happens to the lookups; and when no stored vote is for E2
    the vote is allowed. *)
Theorem cross_entry_independence env E2 s f ip w pre v1 post :
  votes w = pre ++ v1 :: post ->
  chili_id v1 <> E2 ->
  let with_v1 := validateVote env E2 s f ip w in
  let without_v1 := validateVote env E2 s f ip (set_votes (pre ++ post) w) in
  fst with_v1 = fst without_v1
  /\ issued w (snd with_v1)
     = issued (set_votes (pre ++ post) w) (snd without_v1)
  /\ (votes_of E2 (pre ++ post) = [] ->
      fst with_v1 = Returns (mkValidation true None)).
Proof.
  intros Hv Hne. cbv zeta.
  assert (Hsame : votes_of E2 (votes w) = votes_of E2 (pre ++ post))
    by (rewrite Hv; apply votes_of_without; assumption).
  destruct (validateVote_same_entry_votes env E2 s f ip
              (set_votes (pre ++ post) w) w Hsame) as [Ho Hi].
  split; [exact Ho|]. split; [exact Hi|].
  intros Hnone. apply validateVote_no_votes.
  rewrite Hsame. exact Hnone.
Qed.

(** The session and the device that voted for the other entry are
    allowed to vote for this one. *)
Lemma cross_entry_independence_witness :
  fst (validateVote later "texas-red" "S1" "F1" None after_verde_vote)
  = Returns (mkValidation true None).
Proof.
  apply (cross_entry_independence later "texas-red" "S1" "F1" None
           after_verde_vote []
           (stored noon (ballot "verde" "S1" (Some "F1") None 4)) []).
  - reflexivity.
  - cbn. discriminate.
  - reflexivity.
Defined.

(** ** C10: entries without votes *)

(** C10: when no stored vote is for the entry, [updateChiliStats]
    returns without sending an update and leaves all entries as they
    were (no reset to 0); an update is sent only for an entry with at
    least one stored vote, and it touches that entry alone. *)
Theorem empty_vote_set_is_not_written env c w :
  let r := updateChiliStats env c w in
  (votes_of c (votes w) = [] ->
   fst r = Returns tt
   /\ chili_entries (snd r) = chili_entries w
   /\ ~ In UpdateEntry (issued w (snd r)))
  /\ (In UpdateEntry (issued w (snd r)) ->
      votes_of c (votes w) <> []
      /\ forall E, E <> c ->
           find_entry E (chili_entries (snd r))
           = find_entry E (chili_entries w)).
Proof.
  cbv zeta. split.
  - intros Hv. split; [apply updateChiliStats_returns|].
    destruct (fault env SelectRatings) eqn:Hs.
    + rewrite updateChiliStats_no_votes by auto. cbn.
      rewrite (issued_app w _ [SelectRatings]) by reflexivity.
      split; [reflexivity|]. cbn. intuition discriminate.
    + rewrite updateChiliStats_select_failed by congruence. cbn.
      rewrite (issued_app w _ [SelectRatings]) by reflexivity.
      split; [reflexivity|]. cbn. intuition discriminate.
    + rewrite updateChiliStats_select_failed by congruence. cbn.
      rewrite (issued_app w _ [SelectRatings]) by reflexivity.
      split; [reflexivity|]. cbn. intuition discriminate.
  - destruct (fault env SelectRatings) eqn:Hs.
    + destruct (votes_of c (votes w)) as [|v vs] eqn:Hv.
      * rewrite updateChiliStats_no_votes by auto. cbn.
        rewrite (issued_app w _ [SelectRatings]) by reflexivity.
        cbn. intuition discriminate.
      * intros _. split; [discriminate|].
        assert (Hne : votes_of c (votes w) <> [])
          by (rewrite Hv; discriminate).
        intros E HE.
        destruct (fault env UpdateEntry) eqn:Hu.
        -- rewrite updateChiliStats_healthy by auto. cbn.
           apply find_entry_update_other. assumption.
        -- rewrite updateChiliStats_update_failed by (auto; congruence).
           reflexivity.
        -- rewrite updateChiliStats_update_failed by (auto; congruence).
           reflexivity.
    + rewrite updateChiliStats_select_failed by congruence. cbn.
      rewrite (issued_app w _ [SelectRatings]) by reflexivity.
      cbn. intuition discriminate.
    + rewrite updateChiliStats_select_failed by congruence. cbn.
      rewrite (issued_app w _ [SelectRatings]) by reflexivity.
      cbn. intuition discriminate.
Qed.

(** The entry without votes keeps its fields when its statistics are
    recomputed. *)
Lemma empty_vote_set_is_not_written_witness :
  fst (updateChiliStats later "verde" after_first_vote) = Returns tt
  /\ chili_entries (snd (updateChiliStats later "verde" after_first_vote))
     = chili_entries after_first_vote
  /\ ~ In UpdateEntry
         (issued after_first_vote
            (snd (updateChiliStats later "verde" after_first_vote))).
Proof.
  apply (proj1 (empty_vote_set_is_not_written later "verde"
                  after_first_vote)).
  reflexivity.
Defined.

(** * Further properties of the code *)

(** ** The admin session, the validator and the recorder *)

(** X1: a session that [createSession] makes at time [t] is accepted
    by [isAuthenticated] at every time up to [t] + 24 hours, that
    moment included, and the storage stays as it is; at any later time
    it is refused and removed from the storage. *)
Theorem session_lasts_24_hours env env' w :
  window_defined env = true ->
  window_defined env' = true ->
  let logged_in := snd (AdminAuth.createSession env w) in
  AdminAuth.isAuthenticated env' logged_in
  = if now env' <=? now env + 24 * 60 * 60 * 1000
    then (Returns true, logged_in)
    else (Returns false, set_admin_session None logged_in).
Proof.
  intros Hw Hw'. cbv zeta.
  unfold AdminAuth.createSession, AdminAuth.isAuthenticated,
    AdminAuth.clearSession, AdminAuth.JSON_parse, try_catch, bind, ret.
  rewrite Hw, Hw'. cbn.
  destruct (_ <=? _) eqn:Hle; destruct (_ <? _) eqn:Hlt;
    try reflexivity; exfalso;
    rewrite ?Z.leb_le, ?Z.leb_gt, ?Z.ltb_lt, ?Z.ltb_ge in *; lia.
Qed.

Lemma session_lasts_24_hours_witness :
  AdminAuth.isAuthenticated later
    (snd (AdminAuth.createSession (browser noon healthy) opening))
  = (Returns true,
     snd (AdminAuth.createSession (browser noon healthy) opening)).
Proof.
  exact (session_lasts_24_hours (browser noon healthy) later opening
           eq_refl eq_refl).
Defined.

(** X2: an expired session is refused and removed: [isAuthenticated]
    returns [false], the admin slot is empty afterwards, and every
    later check, at whatever time, returns [false]. *)
Theorem expired_session_is_removed env a ex w :
  window_defined env = true ->
  admin_session w = Some (SessionJson a ex) ->
  ex < now env ->
  let r := AdminAuth.isAuthenticated env w in
  fst r = Returns false
  /\ admin_session (snd r) = None
  /\ forall env', fst (AdminAuth.isAuthenticated env' (snd r)) = Returns false.
Proof.
  intros Hw Hs Hex. cbv zeta.
  assert (Hr : AdminAuth.isAuthenticated env w
               = (Returns false, set_admin_session None w)).
  { unfold AdminAuth.isAuthenticated, AdminAuth.clearSession,
      AdminAuth.JSON_parse, try_catch, bind, ret.
    rewrite Hw, Hs. cbn.
    destruct (Z.ltb_spec ex (now env)); [|lia]. cbn.
    reflexivity. }
  rewrite Hr. cbn. repeat split. intros env'.
  unfold AdminAuth.isAuthenticated, try_catch.
  destruct (window_defined env'); reflexivity.
Qed.

Lemma expired_session_is_removed_witness :
  fst (AdminAuth.isAuthenticated next_day admin_logged_in) = Returns false
  /\ admin_session (snd (AdminAuth.isAuthenticated next_day admin_logged_in))
     = None.
Proof.
  destruct (expired_session_is_removed next_day true
              (noon + AdminAuth.SESSION_DURATION) admin_logged_in)
    as [H1 [H2 _]]; [reflexivity|reflexivity|reflexivity|].
  split; [exact H1|exact H2].
Defined.

(** X3: [validateVote] never throws and never writes: it returns
    permission, or a refusal with one of the three duplicate messages,
    and the votes, the entries and the admin slot are as before. *)
Theorem validateVote_verdicts env c s f ip w :
  let r := validateVote env c s f ip w in
  (fst r = Returns (mkValidation true None)
   \/ exists why, In why duplicate_reasons
                  /\ fst r = Returns (mkValidation false (Some why)))
  /\ votes (snd r) = votes w
  /\ chili_entries (snd r) = chili_entries w
  /\ admin_session (snd r) = admin_session w.
Proof.
  cbv zeta.
  unfold validateVote, try_catch, bind, await_request, read_only, ret,
    throw, console_error, duplicate_reasons.
  cbn. split_cases env; (split; [|repeat split]);
    first [ left; reflexivity
          | right; eexists; split; [|reflexivity]; cbn; tauto ].
Qed.

Lemma bypass_or_validate_throws env vote w e :
  fst (bypass_or_validate env vote w) = Throws e ->
  instanceof_Error e = true /\ In (message e) duplicate_reasons.
Proof.
  unfold bypass_or_validate, bind.
  destruct (isAuthenticated_frame env w) as [[b Hb] _].
  destruct (AdminAuth.isAuthenticated env w) as [o w1]. cbn in Hb. subst o.
  destruct (deviceFingerprint vote) as [fp|]; [|discriminate].
  destruct (negb b && truthy (Some fp)); [|discriminate].
  destruct (validateVote_verdicts env (chiliId vote) (sessionId vote) fp
              (ipAddress vote) w1) as [Hv _].
  destruct (validateVote _ _ _ _ _ w1) as [o w2]. cbn [fst] in Hv.
  destruct Hv as [-> | [why [Hin ->]]]; cbn; [discriminate|].
  intros Heq. inversion Heq; subst e; clear Heq.
  unfold duplicate_reasons in Hin. cbn in Hin.
  destruct Hin as [<-|[<-|[<-|[]]]]; cbn; auto.
Qed.

(** X4: whatever [submitVote] throws is an [Error]: either the refusal
    of the validator, with one of the three duplicate messages, or the
    failure of the insert, which is the error of the store itself when
    that is an [Error] and [new Error('Failed to submit vote')]
    otherwise.  Neither the admin check nor the recompute makes it
    throw. *)
Theorem submitVote_throws_only env vote w e :
  fst (submitVote env vote w) = Throws e ->
  instanceof_Error e = true
  /\ (In (message e) duplicate_reasons
      \/ exists e0,
           (fault env InsertVote = ErrorResult e0
            \/ fault env InsertVote = Rejected e0)
           /\ e = if instanceof_Error e0 then e0
                  else new_Error "Failed to submit vote").
Proof.
  rewrite submitVote_stages, try_catch_seq.
  pose proof (bypass_or_validate_throws env vote w) as Hgate.
  destruct (bypass_or_validate env vote w) as [[[]|e1] w1].
  - clear Hgate.
    unfold try_catch, insert_then_recompute, bind, await_request.
    destruct (fault env InsertVote) as [|e0|e0] eqn:Hi; cbn [error].
    + pose proof (updateChiliStats_returns env (chiliId vote)
                    (set_votes (votes (log_request InsertVote w1)
                                ++ [vote_row env vote])
                       (log_request InsertVote w1))) as Hret.
      destruct (updateChiliStats _ _ _) as [o2 w2]. cbn in Hret. subst o2.
      discriminate.
    + cbn. destruct (instanceof_Error e0) eqn:Hinst; cbn;
        intros Heq; inversion Heq; subst e; (split; [auto|]);
        right; exists e0; rewrite Hinst; auto.
    + cbn. destruct (instanceof_Error e0) eqn:Hinst; cbn;
        intros Heq; inversion Heq; subst e; (split; [auto|]);
        right; exists e0; rewrite Hinst; auto.
  - destruct (Hgate e1 eq_refl) as [Hinst Hin].
    cbn. rewrite Hinst. cbn. intros Heq. inversion Heq; subst e. auto.
Qed.

Lemma submitVote_throws_only_witness :
  instanceof_Error (new_Error "Failed to submit vote") = true
  /\ (In (message (new_Error "Failed to submit vote")) duplicate_reasons
      \/ exists e0,
           (fault insert_errors InsertVote = ErrorResult e0
            \/ fault insert_errors InsertVote = Rejected e0)
           /\ new_Error "Failed to submit vote"
              = if instanceof_Error e0 then e0
                else new_Error "Failed to submit vote").
Proof.
  apply (submitVote_throws_only insert_errors first_ballot opening).
  reflexivity.
Defined.

Lemma update_entries_ids c n t a es :
  map id (update_entries c n t a es) = map id es.
Proof.
  unfold update_entries. rewrite map_map. apply map_ext.
  intros e. destruct (String.eqb (id e) c); reflexivity.
Qed.

Lemma update_entries_others c n t a es :
  filter (fun e => negb (String.eqb (id e) c)) (update_entries c n t a es)
  = filter (fun e => negb (String.eqb (id e) c)) es.
Proof.
  unfold update_entries. induction es as [|e es IH]; cbn; [reflexivity|].
  destruct (String.eqb (id e) c) eqn:He; cbn; rewrite He; cbn;
    rewrite IH; reflexivity.
Qed.

(** X5: [submitVote] stores at most its own row, behind the stored
    votes; it adds, removes and reorders no entry, and leaves every
    entry with another id as it is. *)
Theorem submitVote_touches_one_entry env vote w :
  let r := submitVote env vote w in
  (votes (snd r) = votes w \/ votes (snd r) = votes w ++ [vote_row env vote])
  /\ map id (chili_entries (snd r)) = map id (chili_entries w)
  /\ filter (fun e => negb (String.eqb (id e) (chiliId vote)))
       (chili_entries (snd r))
     = filter (fun e => negb (String.eqb (id e) (chiliId vote)))
         (chili_entries w).
Proof.
  cbv zeta. split.
  - destruct (submitVote_run env vote w) as [l [_ [_ H]]].
    destruct H as [[_ [_ [Hv _]]]
                  |[[_ [_ [Hv _]]]
                   |[[_ [_ [_ [_ [Hv _]]]]]
                    |[_ [_ [_ [Hv _]]]]]]]; auto.
  - destruct (submitVote_entries env vote w) as [-> | ->]; auto.
    unfold recomputed. rewrite update_entries_ids, update_entries_others.
    auto.
Qed.

Lemma update_entries_twice c n t a n' t' a' es :
  update_entries c n t a (update_entries c n' t' a' es)
  = update_entries c n t a es.
Proof.
  unfold update_entries. rewrite map_map. apply map_ext. intros e.
  destruct (String.eqb (id e) c) eqn:He; cbn; rewrite He; reflexivity.
Qed.

(** X6: a served recompute depends on the stored votes only, not on
    the aggregates that it finds: run after any earlier recompute of
    the entry, served or failed, it leaves the entries that it leaves
    when run alone; and no recompute changes the votes. *)
Theorem updateChiliStats_idempotent env env' c w :
  fault env' SelectRatings = Healthy ->
  fault env' UpdateEntry = Healthy ->
  let once := updateChiliStats env' c w in
  let again := updateChiliStats env' c (snd (updateChiliStats env c w)) in
  chili_entries (snd again) = chili_entries (snd once)
  /\ votes (snd again) = votes w.
Proof.
  intros Hs Hu. cbv zeta.
  assert (Hfirst :
    votes (snd (updateChiliStats env c w)) = votes w
    /\ (chili_entries (snd (updateChiliStats env c w)) = chili_entries w
        \/ votes_of c (votes w) <> []
           /\ chili_entries (snd (updateChiliStats env c w))
              = recomputed c (votes w) (chili_entries w))).
  { assert (Hdec : votes_of c (votes w) = [] \/ votes_of c (votes w) <> [])
      by (destruct (votes_of c (votes w)); [left|right]; congruence).
    destruct (fault env SelectRatings) eqn:Hs1;
      [|rewrite updateChiliStats_select_failed by congruence; cbn; auto..].
    destruct Hdec as [Hv|Hne];
      [rewrite updateChiliStats_no_votes by auto; cbn; auto|].
    destruct (fault env UpdateEntry) eqn:Hu1;
      [rewrite updateChiliStats_healthy by auto; cbn; auto
      |rewrite updateChiliStats_update_failed by (auto; congruence);
       cbn; auto..]. }
  destruct Hfirst as [Hv1 He1].
  set (w1 := snd (updateChiliStats env c w)) in *.
  destruct (votes_of c (votes w)) as [|v vs] eqn:Hv.
  - assert (Hv' : votes_of c (votes w1) = []) by (rewrite Hv1; exact Hv).
    rewrite (updateChiliStats_no_votes env' c w1 Hv' Hs).
    rewrite (updateChiliStats_no_votes env' c w Hv Hs). cbn.
    split; [|exact Hv1].
    destruct He1 as [He1|[Hne _]]; [exact He1|congruence].
  - assert (Hne : votes_of c (votes w) <> []) by (rewrite Hv; discriminate).
    assert (Hne' : votes_of c (votes w1) <> []) by (rewrite Hv1; exact Hne).
    rewrite (updateChiliStats_healthy env' c w1 Hne' Hs Hu).
    rewrite (updateChiliStats_healthy env' c w Hne Hs Hu). cbn.
    split; [|exact Hv1]. rewrite Hv1.
    destruct He1 as [-> | [_ ->]]; [reflexivity|].
    unfold recomputed. apply update_entries_twice.
Qed.

Lemma updateChiliStats_idempotent_witness :
  chili_entries
    (snd (updateChiliStats later "texas-red"
            (snd (updateChiliStats select_rejects "texas-red"
                    after_first_vote))))
  = chili_entries (snd (updateChiliStats later "texas-red" after_first_vote))
  /\ votes
       (snd (updateChiliStats later "texas-red"
               (snd (updateChiliStats select_rejects "texas-red"
                       after_first_vote))))
     = votes after_first_vote.
Proof.
  apply (updateChiliStats_idempotent select_rejects later "texas-red"
           after_first_vote); reflexivity.
Defined.

(** X7: a vote that is recorded while the statistics requests are
    served brings its entry up to date whatever the entry held before:
    its rating joins the stored ratings of the entry, and the
    aggregates of the entry are those of all of them, also the ones
    whose recompute was lost. *)
Theorem served_vote_repairs_aggregates env vote w e0 :
  fst (submitVote env vote w) = Returns tt ->
  fault env SelectRatings = Healthy ->
  fault env UpdateEntry = Healthy ->
  find_entry (chiliId vote) (chili_entries w) = Some e0 ->
  let r := submitVote env vote w in
  ratings_of (chiliId vote) (snd r)
  = ratings_of (chiliId vote) w ++ [overallRating vote]
  /\ exists e,
       find_entry (chiliId vote) (chili_entries (snd r)) = Some e
       /\ aggregates_match (ratings_of (chiliId vote) (snd r)) e.
Proof.
  intros Hret Hs Hu Hfind. cbv zeta.
  destruct (submitVote_run env vote w) as [l [_ [_ H]]].
  destruct H as [[_ [[msg Ho] _]]
                |[[_ [[e Ho] _]]
                 |[[_ [_ [_ [_ [Hv [He _]]]]]]
                  |[_ [[Hbad|Hbad] _]]]]]; try congruence.
  assert (Hr : ratings_of (chiliId vote) (snd (submitVote env vote w))
               = ratings_of (chiliId vote) w ++ [overallRating vote]).
  { unfold ratings_of. rewrite Hv, votes_of_app, votes_of_row, map_app.
    reflexivity. }
  split; [exact Hr|].
  exists (stats_entry (id e0)
            (ratings_of (chiliId vote) (snd (submitVote env vote w)))).
  split; [|apply stats_entry_matches].
  rewrite He. unfold ratings_of. rewrite Hv.
  apply find_entry_recomputed. exact Hfind.
Qed.

Lemma served_vote_repairs_aggregates_witness :
  ratings_of "texas-red"
    (snd (submitVote later (ballot "texas-red" "S2" (Some "F2") None 3)
            after_first_vote))
  = [5; 3]
  /\ exists e,
       find_entry "texas-red"
         (chili_entries
            (snd (submitVote later
                    (ballot "texas-red" "S2" (Some "F2") None 3)
                    after_first_vote)))
       = Some e
       /\ aggregates_match
            (ratings_of "texas-red"
               (snd (submitVote later
                       (ballot "texas-red" "S2" (Some "F2") None 3)
                       after_first_vote))) e.
Proof.
  apply (served_vote_repairs_aggregates later
           (ballot "texas-red" "S2" (Some "F2") None 3) after_first_vote
           texas_red); reflexivity.
Defined.

Lemma total_bounds rs :
  (forall r, In r rs -> 1 <= r <= 5) ->
  Z.of_nat (List.length rs) <= total rs <= 5 * Z.of_nat (List.length rs).
Proof.
  induction rs as [|r rs IH]; intros Hall; [cbn; lia|].
  assert (Hr : 1 <= r <= 5) by (apply Hall; left; reflexivity).
  assert (Hrest : forall x, In x rs -> 1 <= x <= 5)
    by (intros x Hx; apply Hall; right; exact Hx).
  specialize (IH Hrest). cbn [total List.length].
  rewrite Nat2Z.inj_succ. lia.
Qed.

Lemma round_one_decimal_bounds (t n : Z) :
  0 < n -> n <= t <= 5 * n ->
  (1 <= round_one_decimal (inject_Z t / inject_Z n)
   /\ round_one_decimal (inject_Z t / inject_Z n) <= 5)%Q.
Proof.
  intros Hn Ht.
  assert (Hn' : (0 < inject_Z n)%Q) by (unfold Qlt; cbn; lia).
  assert (Hlo : (1 <= inject_Z t / inject_Z n)%Q).
  { apply Qle_shift_div_l; [exact Hn'|].
    rewrite Qmult_1_l. rewrite <- Zle_Qle. lia. }
  assert (Hhi : (inject_Z t / inject_Z n <= 5)%Q).
  { apply Qle_shift_div_r; [exact Hn'|].
    change 5%Q with (inject_Z 5). rewrite <- inject_Z_mult, <- Zle_Qle.
    lia. }
  unfold round_one_decimal, Math_round.
  set (q := (inject_Z t / inject_Z n)%Q) in *.
  set (x := (q * inject_Z 10 + (1 # 2))%Q).
  assert (Hk1 : 10 <= Qfloor x).
  { rewrite <- (Qfloor_Z 10). apply Qfloor_resp_le. subst x.
    change (inject_Z 10) with (10 # 1)%Q. lra. }
  assert (Hk2 : Qfloor x <= 50).
  { pose proof (Qfloor_le x) as Hle.
    assert (Hx : (inject_Z (Qfloor x) <= 101 # 2)%Q).
    { apply (Qle_trans _ x); [exact Hle|]. subst x.
      change (inject_Z 10) with (10 # 1)%Q. clear - Hhi. clearbody q.
      lra. }
    revert Hx. clear. generalize (Qfloor x). intros k Hx.
    unfold Qle in Hx. cbn in Hx. lia. }
  revert Hk1 Hk2. generalize (Qfloor x). intros k Hk1 Hk2.
  rewrite tenths. unfold Qle. cbn. lia.
Qed.

(** X8: when all stored ratings of an entry lie between 1 and 5, a
    served recompute leaves the entry with a positive count, a total
    between the count and five times the count, and an average between
    1 and 5. *)
Theorem in_range_ratings_in_range_aggregates env c w e0 :
  fault env SelectRatings = Healthy ->
  fault env UpdateEntry = Healthy ->
  votes_of c (votes w) <> [] ->
  (forall v, In v (votes_of c (votes w)) -> 1 <= overall_rating v <= 5) ->
  find_entry c (chili_entries w) = Some e0 ->
  exists e,
    find_entry c (chili_entries (snd (updateChiliStats env c w))) = Some e
    /\ 1 <= vote_count e
    /\ vote_count e <= total_score e <= 5 * vote_count e
    /\ (1 <= average_rating e /\ average_rating e <= 5)%Q.
Proof.
  intros Hs Hu Hne Hall Hfind.
  rewrite (updateChiliStats_healthy env c w Hne Hs Hu). cbn [snd].
  eexists. split.
  { unfold set_chili_entries. cbn [chili_entries].
    apply find_entry_recomputed. exact Hfind. }
  set (rs := map overall_rating (votes_of c (votes w))).
  assert (Hrs : forall r, In r rs -> 1 <= r <= 5).
  { intros r Hin. apply in_map_iff in Hin as [v [<- Hv]]. apply Hall, Hv. }
  assert (Hlen : 0 < Z.of_nat (List.length rs)).
  { subst rs. rewrite length_map.
    destruct (votes_of c (votes w)); [congruence|cbn; lia]. }
  pose proof (total_bounds rs Hrs) as Hb.
  unfold stats_entry. cbn [vote_count total_score average_rating].
  rewrite sum_ratings_total.
  split; [lia|]. split; [exact Hb|].
  apply round_one_decimal_bounds; assumption.
Qed.

Lemma in_range_ratings_in_range_aggregates_witness :
  exists e,
    find_entry "texas-red"
      (chili_entries (snd (updateChiliStats later "texas-red"
                             after_first_vote))) = Some e
    /\ 1 <= vote_count e
    /\ vote_count e <= total_score e <= 5 * vote_count e
    /\ (1 <= average_rating e /\ average_rating e <= 5)%Q.
Proof.
  apply (in_range_ratings_in_range_aggregates later "texas-red"
           after_first_vote texas_red); try reflexivity.
  - discriminate.
  - intros v [<-|[]]. cbn. lia.
Defined.

(** ** The other operations of the database class *)

Import ChiliDatabaseOps.

(** X9: [hasVoted] never throws; it answers [true] exactly when the read
    is served and one stored vote of the entry carries the session id,
    so a session with two stored votes for the entry is reported as not
    having voted.  Nothing but the console changes. *)
Theorem hasVoted_answer f s c w :
  let r := hasVoted f s c w in
  exists b, fst r = Returns b
  /\ (b = true <->
      f = ReadServed /\ exists row, session_rows c s (votes w) = [row])
  /\ votes (snd r) = votes w /\ chili_entries (snd r) = chili_entries w
  /\ requests (snd r) = requests w.
Proof.
  cbv zeta. unfold hasVoted, try_catch, bind, await_read.
  destruct f as [|e|e].
  - destruct (session_rows c s (votes w)) as [|row [|row' rows]] eqn:Hrows;
      cbn.
    + exists false. repeat split; try discriminate.
      intros [_ [row H]]. discriminate.
    + exists true. repeat split; eauto.
    + exists false. repeat split; try discriminate.
      intros [_ [r H]]. discriminate.
  - cbn. destruct (negb (code e =? "PGRST116")%string); cbn;
      exists false; repeat split; try discriminate;
      intros [H _]; discriminate.
  - cbn. exists false; repeat split; try discriminate;
      intros [H _]; discriminate.
Qed.

(** X10: [getVotingStats] never throws and never divides by zero: it
    returns counts that are not negative, an average of 0 when no entry
    is counted, else the quotient of the counts rounded to one decimal
    place; when a request rejects both counts are 0. *)
Theorem getVotingStats_returns fe fv w :
  exists s, fst (getVotingStats fe fv w) = Returns s
  /\ 0 <= totalEntries s /\ 0 <= totalVotes s
  /\ (totalEntries s = 0 -> (averageVotesPerEntry s == 0)%Q)
  /\ (0 < totalEntries s ->
      rounds_to_one_decimal
        (inject_Z (totalVotes s) / inject_Z (totalEntries s))
        (averageVotesPerEntry s))
  /\ (fe = Healthy -> fv = Healthy ->
      totalEntries s = Z.of_nat (List.length (chili_entries w))
      /\ totalVotes s = Z.of_nat (List.length (votes w)))
  /\ ((exists e, fe = Rejected e \/ fv = Rejected e) ->
      totalEntries s = 0 /\ totalVotes s = 0).
Proof.
  assert (Hzero : (round_one_decimal 0 == 0)%Q) by (vm_compute; reflexivity).
  unfold getVotingStats, try_catch, bind, Promise_all, await_count.
  destruct fe as [|e|e], fv as [|e'|e']; cbn;
    eexists; (split; [reflexivity|]);
    cbn [totalEntries totalVotes averageVotesPerEntry count_or_zero
         fst snd];
    (split; [lia|]); (split; [lia|]);
    (split; [|split; [|split]]);
    try (intros _; exact Hzero); try (intros H; exfalso; lia);
    try (intros; discriminate); try (intros _ _; split; reflexivity);
    try (intros _; split; reflexivity);
    try (intros [e0 [H|H]]; discriminate).
  all: intros H;
    destruct (Z.ltb_spec 0 (Z.of_nat (List.length (chili_entries w))));
    first [lia | exact Hzero | apply round_one_decimal_spec].
Qed.

(** X11: [deleteChiliEntry] is all or nothing: served, it returns and
    exactly the entry with that id is gone; else it throws the generic
    error (never the error of the store) and removes nothing. *)
Theorem deleteChiliEntry_all_or_nothing cascade f i w :
  let r := deleteChiliEntry cascade f i w in
  (f = Healthy /\ fst r = Returns tt
   /\ chili_entries (snd r)
      = filter (fun e => negb (String.eqb (id e) i)) (chili_entries w)
   /\ find_entry i (chili_entries (snd r)) = None)
  \/ (f <> Healthy
      /\ fst r = Throws (new_Error "Failed to delete chili entry")
      /\ chili_entries (snd r) = chili_entries w
      /\ votes (snd r) = votes w).
Proof.
  cbv zeta. unfold deleteChiliEntry, try_catch, bind, await_delete.
  destruct f as [|e|e]; cbn.
  - left. repeat split.
    + apply filter_ext. intros a. rewrite orb_false_r. reflexivity.
    + induction (chili_entries w) as [|a es IH]; [reflexivity|].
      cbn. rewrite orb_false_r.
      destruct (String.eqb_spec (id a) i) as [E|E]; cbn; [exact IH|].
      unfold find_entry in *. cbn.
      destruct (String.eqb_spec (id a) i); [contradiction|]. exact IH.
  - right. repeat split. discriminate.
  - right. repeat split. discriminate.
Qed.

Lemma delete_each_entries cascade ids w :
  fst (delete_each cascade Healthy ids w) = Returns tt
  /\ chili_entries (snd (delete_each cascade Healthy ids w))
     = filter (fun e => negb (existsb (String.eqb (id e)) ids))
         (chili_entries w).
Proof.
  revert w. induction ids as [|i rest IH]; intros w.
  - cbn. split; [reflexivity|].
    induction (chili_entries w) as [|a es IHes]; [reflexivity|].
    cbn. f_equal. exact IHes.
  - destruct (IH (delete_rows cascade [i] w)) as [H1 H2].
    cbn [delete_each]. unfold bind.
    unfold deleteChiliEntry at 1 2. unfold try_catch, bind, await_delete.
    cbn [fst snd error ret].
    split; [exact H1|]. rewrite H2. cbn.
    induction (chili_entries w) as [|a es IHes]; [reflexivity|].
    cbn. rewrite orb_false_r.
    destruct (String.eqb (id a) i); cbn; [exact IHes|].
    destruct (existsb _ rest); cbn; [exact IHes|]. f_equal. exact IHes.
Qed.

(** X12: as far as the entries go, a served bulk deletion is the
    deletion of the ids one by one. *)
Theorem bulkDelete_is_delete_each cascade ids w :
  let bulk := bulkDeleteChiliEntries cascade Healthy ids w in
  let one_by_one := delete_each cascade Healthy ids w in
  fst bulk = Returns tt /\ fst one_by_one = Returns tt
  /\ chili_entries (snd bulk) = chili_entries (snd one_by_one).
Proof.
  cbv zeta. destruct (delete_each_entries cascade ids w) as [H1 H2].
  split; [reflexivity|]. split; [exact H1|]. rewrite H2. reflexivity.
Qed.

(** ** The voter's session *)

Lemma includes_app (voted more : list string) (c : string) :
  SessionManager.includes (voted ++ more) c
  = SessionManager.includes voted c || SessionManager.includes more c.
Proof. unfold SessionManager.includes. apply existsb_app. Qed.

Lemma getSessionId_voted env part ls :
  SessionManager.voted_chilis (snd (SessionManager.getSessionId env part ls))
  = SessionManager.voted_chilis ls.
Proof.
  unfold SessionManager.getSessionId.
  destruct (negb (window_defined env)); [reflexivity|].
  destruct (negb (truthy _)); reflexivity.
Qed.

Lemma markAsVoted_marks env c ls voted :
  window_defined env = true ->
  SessionManager.parse_voted ls = Returns voted ->
  fst (SessionManager.markAsVoted env c ls) = Returns tt
  /\ SessionManager.hasVoted env c (snd (SessionManager.markAsVoted env c ls))
     = Returns true.
Proof.
  intros Hw Hp.
  unfold SessionManager.markAsVoted, SessionManager.hasVoted.
  rewrite Hw, Hp. cbn [negb].
  destruct (SessionManager.includes voted c) eqn:Hin; cbn [negb fst snd].
  - rewrite Hp, Hin. split; reflexivity.
  - unfold SessionManager.parse_voted.
    cbn [SessionManager.voted_chilis].
    rewrite includes_app. cbn [SessionManager.includes existsb].
    rewrite String.eqb_refl, orb_true_r. split; reflexivity.
Qed.

(** X13: in a browser whose list of voted chilis is readable,
    [markAsVoted] makes [hasVoted] answer [true] for that chili and
    changes the answer for no other chili nor the session id; marking
    again changes nothing. *)
Theorem markAsVoted_then_hasVoted env c ls voted :
  window_defined env = true ->
  SessionManager.parse_voted ls = Returns voted ->
  let marked := snd (SessionManager.markAsVoted env c ls) in
  fst (SessionManager.markAsVoted env c ls) = Returns tt
  /\ SessionManager.hasVoted env c marked = Returns true
  /\ (forall c', c' <> c ->
        SessionManager.hasVoted env c' marked
        = SessionManager.hasVoted env c' ls)
  /\ SessionManager.chili_voter_session marked
     = SessionManager.chili_voter_session ls
  /\ SessionManager.markAsVoted env c marked = (Returns tt, marked).
Proof.
  intros Hw Hp. cbv zeta.
  unfold SessionManager.markAsVoted, SessionManager.hasVoted.
  rewrite Hw, Hp. cbn [negb].
  destruct (SessionManager.includes voted c) eqn:Hin; cbn [negb fst snd].
  - rewrite Hp, Hin. cbn [negb]. repeat split.
  - unfold SessionManager.parse_voted at 1 2 3.
    cbn [SessionManager.voted_chilis SessionManager.chili_voter_session].
    rewrite includes_app. cbn [SessionManager.includes existsb].
    rewrite String.eqb_refl, orb_true_r. cbn [negb orb].
    repeat split.
    intros c' Hc'. f_equal.
    rewrite includes_app. cbn [SessionManager.includes existsb].
    destruct (String.eqb_spec c' c); [contradiction|].
    rewrite !orb_false_r. reflexivity.
Qed.

Lemma markAsVoted_then_hasVoted_witness :
  SessionManager.hasVoted later "texas-red"
    (snd (SessionManager.markAsVoted later "texas-red" verde_voter))
  = Returns true
  /\ SessionManager.hasVoted later "verde"
       (snd (SessionManager.markAsVoted later "texas-red" verde_voter))
     = Returns true.
Proof.
  destruct (markAsVoted_then_hasVoted later "texas-red" verde_voter
              ["verde"] eq_refl eq_refl) as (_ & H & Hother & _).
  split; [exact H|]. rewrite Hother; [reflexivity|discriminate].
Defined.

(** X14: in the browser the session id is made once: whatever the
    storage held, the id that [getSessionId] returns is the one every
    later call returns, and later calls write nothing. *)
Theorem getSessionId_stable env env' part part' ls :
  window_defined env = true -> window_defined env' = true ->
  let first := SessionManager.getSessionId env part ls in
  SessionManager.getSessionId env' part' (snd first) = (fst first, snd first)
  /\ SessionManager.voted_chilis (snd first) = SessionManager.voted_chilis ls.
Proof.
  intros Hw Hw'. cbv zeta. unfold SessionManager.getSessionId.
  rewrite Hw, Hw'. cbn [negb].
  destruct (truthy (SessionManager.chili_voter_session ls)) eqn:T;
    cbn [negb fst snd].
  - rewrite T. cbn [negb]. split; reflexivity.
  - cbn [SessionManager.chili_voter_session SessionManager.voted_chilis].
    split; reflexivity.
Qed.

Lemma getSessionId_stable_witness :
  SessionManager.getSessionId next_day "k3j9x0pqa"
    (snd (SessionManager.getSessionId later "e8m2v7c1d"
            (SessionManager.clearSession later verde_voter)))
  = SessionManager.getSessionId later "e8m2v7c1d"
      (SessionManager.clearSession later verde_voter).
Proof.
  destruct (getSessionId_stable later next_day "e8m2v7c1d" "k3j9x0pqa"
              (SessionManager.clearSession later verde_voter)
              eq_refl eq_refl) as [H _].
  rewrite H. reflexivity.
Defined.

(** ** The page behind the QR codes *)

(** X15: with a category left unrated the page sends nothing: it shows
    the request to rate all categories and leaves the store and the
    local storage as they are. *)
Theorem unrated_vote_sends_nothing env part voteData p w :
  VotePage.unrated voteData = true ->
  let r := VotePage.submitVote env part voteData p w in
  snd r = w
  /\ exists p', fst r = Returns p'
     /\ VotePage.storage p' = VotePage.storage p
     /\ (VotePage.chili p <> None ->
         VotePage.alerts p' = VotePage.alerts p ++ [VotePage.rate_all]).
Proof.
  intros Hu. cbv zeta. unfold VotePage.submitVote.
  destruct (VotePage.chili p) as [c|].
  - rewrite Hu. cbn. split; [reflexivity|]. eexists. repeat split.
  - cbn. split; [reflexivity|]. exists p. repeat split. intros H. contradiction.
Qed.

Lemma unrated_vote_sends_nothing_witness :
  snd (VotePage.submitVote later "e8m2v7c1d" taste_unrated texas_red_page
         after_qr_vote)
  = after_qr_vote.
Proof.
  apply (unrated_vote_sends_nothing later "e8m2v7c1d" taste_unrated
           texas_red_page after_qr_vote).
  reflexivity.
Defined.

(** X16: the page sends no fingerprint, so its vote is never looked up:
    with the ratings filled in and readable local storage, the handler
    sends no lookup whatever votes are stored.  When the insert is
    served the vote is stored, the chili is marked as voted and the
    success text is shown; when it fails nothing is stored, nothing is
    marked and the failure text is shown. *)
Theorem page_vote_is_never_looked_up env part voteData p c w voted :
  VotePage.chili p = Some c ->
  VotePage.unrated voteData = false ->
  window_defined env = true ->
  SessionManager.parse_voted (VotePage.storage p) = Returns voted ->
  let r := VotePage.submitVote env part voteData p w in
  exists p', fst r = Returns p'
  /\ forallb (fun q => negb (is_lookup q)) (issued w (snd r)) = true
  /\ ((fault env InsertVote = Healthy
       /\ (exists row, votes (snd r) = votes w ++ [row]
                       /\ chili_id row = id c)
       /\ SessionManager.hasVoted env (id c) (VotePage.storage p')
          = Returns true
       /\ VotePage.alerts p' = VotePage.alerts p ++ [VotePage.vote_submitted])
      \/ (fault env InsertVote <> Healthy
          /\ votes (snd r) = votes w
          /\ SessionManager.voted_chilis (VotePage.storage p')
             = SessionManager.voted_chilis (VotePage.storage p)
          /\ VotePage.alerts p' = VotePage.alerts p ++ [VotePage.vote_failed])).
Proof.
  intros Hc Hu Hw Hp. cbv zeta. unfold VotePage.submitVote.
  rewrite Hc, Hu.
  set (session := SessionManager.getSessionId env part (VotePage.storage p)).
  set (vote := VotePage.submission c (fst session) voteData).
  assert (Hp1 : SessionManager.parse_voted (snd session) = Returns voted).
  { unfold SessionManager.parse_voted in *. subst session.
    rewrite getSessionId_voted. exact Hp. }
  destruct (markAsVoted_marks env (id c) (snd session) voted Hw Hp1)
    as [Hm1 Hm2].
  destruct (submitVote_run env vote w) as [l [_ [Hby Hcases]]].
  assert (Hl : l = []) by (apply Hby; right; reflexivity). subst l.
  cbn [app] in Hcases.
  unfold try_catch, bind.
  cbn [VotePage.storage VotePage.set_storage].
  destruct (ChiliDatabase.submitVote env vote w) as [o w1] eqn:Es.
  cbn [fst snd] in Hcases.
  destruct (SessionManager.markAsVoted env (id c) (snd session))
    as [m ls2] eqn:Em.
  cbn [fst snd] in Hm1, Hm2. subst m.
  destruct Hcases as [[Hnb _]|[H|[H|H]]].
  - exfalso. apply Hnb. right. reflexivity.
  - destruct H as (Hf & [e He] & Hv & _ & Hr). subst o.
    cbn. eexists. split; [reflexivity|]. split.
    + rewrite (issued_app w _ [InsertVote]); [reflexivity|].
      unfold log_console. cbn. exact Hr.
    + right. split; [exact Hf|]. split; [exact Hv|].
      split; [apply getSessionId_voted|reflexivity].
  - destruct H as (Hf & _ & _ & Ho & Hv & _ & Hr). subst o.
    cbn. eexists. split; [reflexivity|]. split.
    + rewrite (issued_app w _ _ Hr). reflexivity.
    + left. split; [exact Hf|]. split.
      * eexists. split; [exact Hv|reflexivity].
      * split; [exact Hm2|reflexivity].
  - destruct H as (Hf & _ & Ho & Hv & _ & _ & Hr). subst o.
    cbn. eexists. split; [reflexivity|]. split.
    + destruct Hr as [Hr|Hr]; rewrite (issued_app w _ _ Hr); reflexivity.
    + left. split; [exact Hf|]. split.
      * eexists. split; [exact Hv|reflexivity].
      * split; [exact Hm2|reflexivity].
Qed.

Lemma page_vote_is_never_looked_up_witness :
  exists p',
    fst (VotePage.submitVote later "e8m2v7c1d" four_stars texas_red_page
           after_qr_vote) = Returns p'
    /\ issued after_qr_vote
         (snd (VotePage.submitVote later "e8m2v7c1d" four_stars
                 texas_red_page after_qr_vote))
       = [InsertVote; SelectRatings; UpdateEntry]
    /\ List.length
         (votes_of "texas-red"
            (votes (snd (VotePage.submitVote later "e8m2v7c1d" four_stars
                           texas_red_page after_qr_vote)))) = 2%nat
    /\ SessionManager.hasVoted later "texas-red" (VotePage.storage p')
       = Returns true.
Proof.
  destruct (page_vote_is_never_looked_up later "e8m2v7c1d" four_stars
              texas_red_page texas_red after_qr_vote ["verde"]
              eq_refl eq_refl eq_refl eq_refl)
    as (p' & Hp & _ & [(_ & _ & Hv & _)|(Hf & _)]).
  - exists p'. split; [exact Hp|]. split; [reflexivity|].
    split; [reflexivity|exact Hv].
  - exfalso. apply Hf. reflexivity.
Defined.

Lemma loadChili_cases order env f cid ls w :
  let r := VotePage.loadChili order env f (Some cid) (VotePage.initial ls) w in
  exists p, fst r = Returns p
  /\ votes (snd r) = votes w /\ chili_entries (snd r) = chili_entries w
  /\ requests (snd r) = requests w
  /\ VotePage.storage p = ls
  /\ forall t,
       VotePage.chili p = Some t <->
       (cid <> "" /\ f = Healthy
        /\ find (fun c => String.eqb (id c) cid) (order (chili_entries w))
           = Some t
        /\ SessionManager.hasVoted env cid ls = Returns false).
Proof.
  cbv zeta. unfold VotePage.loadChili. cbn [truthy].
  destruct (String.eqb_spec cid "") as [E|E]; cbn [negb].
  - eexists. split; [reflexivity|]. do 4 (split; [reflexivity|]).
    intros t. split; [intros H; discriminate|].
    intros (H & _). contradiction.
  - unfold try_catch, bind, ChiliDatabaseReads.getChiliEntries,
      ChiliDatabaseReads.await_entries, bind.
    destruct f as [|e|e]; cbn.
    + destruct (find _ (order (chili_entries w))) as [t0|] eqn:Ef; cbn.
      * destruct (SessionManager.hasVoted env cid ls) as [[|]|e] eqn:Eh; cbn;
          eexists; (split; [reflexivity|]); do 4 (split; [reflexivity|]);
          intros t; cbn; (split; [intros H|intros (H1 & H2 & H3 & H4)]);
          try discriminate.
        -- injection H as H. subst. repeat split. exact E.
        -- injection H3 as H3. subst. reflexivity.
      * eexists. split; [reflexivity|]. do 4 (split; [reflexivity|]).
        intros t; cbn; (split; [intros H|intros (H1 & H2 & H3 & H4)]);
          discriminate.
    + eexists. split; [reflexivity|]. do 4 (split; [reflexivity|]).
      intros t; cbn; (split; [intros H|intros (H1 & H2 & H3 & H4)]);
        discriminate.
    + eexists. split; [reflexivity|]. do 4 (split; [reflexivity|]).
      intros t; cbn; (split; [intros H|intros (H1 & H2 & H3 & H4)]);
        discriminate.
Qed.

(** X17: a chili that the local storage lists as voted is not offered by
    the page: whatever the store answers, the page holds no chili after
    loading, and its handler then sends nothing and shows nothing. *)
Theorem marked_chili_is_not_offered order env env' f cid part voteData ls w :
  SessionManager.hasVoted env cid ls = Returns true ->
  let loaded :=
    VotePage.loadChili order env f (Some cid) (VotePage.initial ls) w in
  exists p, fst loaded = Returns p /\ VotePage.chili p = None
  /\ VotePage.submitVote env' part voteData p (snd loaded)
     = (Returns p, snd loaded).
Proof.
  intros Hv. cbv zeta.
  destruct (loadChili_cases order env f cid ls w)
    as (p & Hp & _ & _ & _ & _ & Hiff).
  exists p. split; [exact Hp|].
  assert (Hnone : VotePage.chili p = None).
  { destruct (VotePage.chili p) as [t|] eqn:E; [|reflexivity].
    destruct (proj1 (Hiff t) eq_refl) as (_ & _ & _ & H).
    rewrite Hv in H. discriminate. }
  split; [exact Hnone|].
  unfold VotePage.submitVote. rewrite Hnone. reflexivity.
Qed.

Lemma marked_chili_is_not_offered_witness :
  exists p,
    fst (VotePage.loadChili table_order later Healthy (Some "verde")
           (VotePage.initial verde_voter) opening) = Returns p
    /\ VotePage.chili p = None
    /\ VotePage.submitVote later "e8m2v7c1d" four_stars p opening
       = (Returns p, opening).
Proof.
  apply (marked_chili_is_not_offered table_order later later Healthy
           "verde" "e8m2v7c1d" four_stars verde_voter opening).
  reflexivity.
Defined.

(** X18: the list in the local storage is the only guard of the page:
    once [clearSession] has run in the browser, the page offers every
    chili of the store again, whatever votes are stored, with a list of
    voted chilis that is empty. *)
Theorem cleared_storage_is_offered_again order env cid ls w target :
  window_defined env = true ->
  cid <> "" ->
  find (fun c => String.eqb (id c) cid) (order (chili_entries w))
  = Some target ->
  let cleared := SessionManager.clearSession env ls in
  let loaded :=
    VotePage.loadChili order env Healthy (Some cid)
      (VotePage.initial cleared) w in
  exists p, fst loaded = Returns p
  /\ VotePage.chili p = Some target /\ id target = cid
  /\ SessionManager.parse_voted (VotePage.storage p) = Returns []
  /\ votes (snd loaded) = votes w.
Proof.
  intros Hw Hcid Hfind. cbv zeta.
  destruct (loadChili_cases order env Healthy cid
              (SessionManager.clearSession env ls) w)
    as (p & Hp & Hvotes & _ & _ & Hst & Hiff).
  exists p. split; [exact Hp|].
  assert (Hclear : SessionManager.clearSession env ls
                   = {| SessionManager.chili_voter_session := None;
                        SessionManager.voted_chilis := None |}).
  { unfold SessionManager.clearSession. rewrite Hw. reflexivity. }
  split; [|split; [|split; [|exact Hvotes]]].
  - apply Hiff. split; [exact Hcid|]. split; [reflexivity|].
    split; [exact Hfind|]. rewrite Hclear.
    unfold SessionManager.hasVoted. rewrite Hw. reflexivity.
  - apply find_some in Hfind. destruct Hfind as [_ H].
    apply String.eqb_eq in H. exact H.
  - rewrite Hst, Hclear. reflexivity.
Qed.

Lemma cleared_storage_is_offered_again_witness :
  exists p,
    fst (VotePage.loadChili table_order later Healthy (Some "verde")
           (VotePage.initial (SessionManager.clearSession later verde_voter))
           after_verde_vote) = Returns p
    /\ VotePage.chili p = Some verde /\ id verde = "verde"
    /\ SessionManager.parse_voted (VotePage.storage p) = Returns []
    /\ votes (snd (VotePage.loadChili table_order later Healthy
                     (Some "verde")
                     (VotePage.initial
                        (SessionManager.clearSession later verde_voter))
                     after_verde_vote))
       = votes after_verde_vote.
Proof.
  apply (cleared_storage_is_offered_again table_order later "verde"
           verde_voter after_verde_vote verde).
  - reflexivity.
  - discriminate.
  - reflexivity.
Defined.

Import JsString EntryCodes TextUtils ChiliSubmission.

(** ** Entry codes *)

Lemma randomIndex_range (u : Q) :
  (0 <= u)%Q -> (u < 1)%Q -> 0 <= randomIndex u < 33.
Proof.
  intros H0 H1. unfold randomIndex.
  change (inject_Z (len chars)) with (33 # 1)%Q.
  set (x := (u * (33 # 1))%Q).
  assert (Hx0 : (0 <= x)%Q) by (subst x; lra).
  assert (Hx1 : (x < 33 # 1)%Q) by (subst x; lra).
  split.
  - change 0 with (Qfloor 0). apply Qfloor_resp_le. exact Hx0.
  - pose proof (Qfloor_le x) as Hle.
    assert (H : (inject_Z (Qfloor x) < inject_Z 33)%Q).
    { apply (Qle_lt_trans _ x); [exact Hle|exact Hx1]. }
    rewrite <- Zlt_Qlt in H. exact H.
Qed.

Lemma code_char_alphanumeric (c : N) :
  code_char c = true ->
  is_alphanumeric c = true /\ toUpperCase_ascii c = c
  /\ schema_char c = true.
Proof.
  unfold code_char, is_alphanumeric, toUpperCase_ascii, schema_char,
    in_range, chr. cbn. intros H.
  repeat rewrite ?orb_true_iff, ?andb_true_iff, ?N.leb_le in H.
  assert (Hup : (65 <= c <= 90 \/ 49 <= c <= 57)%N) by lia.
  repeat split.
  - repeat rewrite ?orb_true_iff, ?andb_true_iff, ?N.leb_le. lia.
  - destruct (97 <=? c)%N eqn:E; [|reflexivity].
    apply N.leb_le in E. exfalso. lia.
  - repeat rewrite ?orb_true_iff, ?andb_true_iff, ?N.leb_le. lia.
Qed.

Lemma char_at_chars (i : Z) :
  0 <= i < 33 ->
  exists c, char_at chars i = [c] /\ code_char c = true.
Proof.
  intros Hi. unfold char_at.
  destruct (Z.ltb_spec i 0); [lia|].
  assert (Hn : (Z.to_nat i < 33)%nat) by lia.
  generalize dependent (Z.to_nat i). intros n Hn.
  do 33 (destruct n as [|n]; [eexists; split; reflexivity|]).
  lia.
Qed.

Lemma startsWith_app (s prefix : JsString) :
  startsWith s prefix = true -> s = prefix ++ skipn (List.length prefix) s.
Proof.
  revert s. induction prefix as [|p prefix IH]; intros s H; [reflexivity|].
  destruct s as [|c s]; [discriminate|]. cbn in H.
  apply andb_true_iff in H. destruct H as [Hc Hs].
  apply N.eqb_eq in Hc. subst c. cbn. f_equal. apply IH. exact Hs.
Qed.

Lemma valid_code_shape (code : JsString) :
  isValidEntryCode code = true ->
  exists a b c d, code = lit "CHILI-" ++ [a; b; c; d]
  /\ code_char a = true /\ code_char b = true
  /\ code_char c = true /\ code_char d = true.
Proof.
  unfold isValidEntryCode. intros H.
  apply andb_true_iff in H. destruct H as [H Hall].
  apply andb_true_iff in H. destruct H as [Hpre Hlen].
  apply startsWith_app in Hpre.
  change (List.length (lit "CHILI-")) with 6%nat in Hpre.
  destruct (skipn 6 code) as [|a [|b [|c [|d [|x rest]]]]]; try discriminate.
  cbn in Hall. repeat rewrite andb_true_iff in Hall.
  exists a, b, c, d. tauto.
Qed.

(** X19: every code that [generateEntryCode] can draw is accepted by
    [isValidEntryCode] and by the schema of the entry codes, and
    [formatEntryCode] leaves it as it is. *)
Theorem generated_codes_are_valid (random : nat -> Q) :
  (forall i, (i < 4)%nat -> (0 <= random i)%Q /\ (random i < 1)%Q) ->
  isValidEntryCode (generateEntryCode random) = true
  /\ entryCodeSchema (generateEntryCode random) = true
  /\ formatEntryCode (generateEntryCode random) = generateEntryCode random.
Proof.
  intros Hdraws.
  assert (Hc : forall i, (i < 4)%nat ->
            exists c, char_at chars (randomIndex (random i)) = [c]
                      /\ code_char c = true).
  { intros i Hi. apply char_at_chars.
    apply randomIndex_range; apply Hdraws; exact Hi. }
  destruct (Hc 0%nat) as [a [Ea Ha]]; [lia|].
  destruct (Hc 1%nat) as [b [Eb Hb]]; [lia|].
  destruct (Hc 2%nat) as [c [Ec Hc2]]; [lia|].
  destruct (Hc 3%nat) as [d [Ed Hd]]; [lia|].
  unfold generateEntryCode, generateRandomCode. cbn [seq fold_left].
  rewrite Ea, Eb, Ec, Ed. cbn [app].
  destruct (code_char_alphanumeric a Ha) as [Aa [Ua Sa]].
  destruct (code_char_alphanumeric b Hb) as [Ab [Ub Sb]].
  destruct (code_char_alphanumeric c Hc2) as [Ac [Uc Sc]].
  destruct (code_char_alphanumeric d Hd) as [Ad [Ud Sd]].
  split; [|split].
  - unfold isValidEntryCode. cbn. rewrite Ha, Hb, Hc2, Hd. reflexivity.
  - unfold entryCodeSchema. cbn. rewrite Sa, Sb, Sc, Sd. reflexivity.
  - unfold formatEntryCode. cbn. rewrite Aa, Ab, Ac, Ad. cbn.
    rewrite Ua, Ub, Uc, Ud. reflexivity.
Qed.

Lemma generated_codes_are_valid_witness :
  generateEntryCode draws = lit "CHILI-19HR"
  /\ isValidEntryCode (generateEntryCode draws) = true
  /\ entryCodeSchema (generateEntryCode draws) = true
  /\ formatEntryCode (generateEntryCode draws) = generateEntryCode draws.
Proof.
  split; [reflexivity|].
  apply (generated_codes_are_valid draws).
  intros i Hi.
  do 4 (destruct i as [|i];
          [split; [unfold Qle|unfold Qlt]; cbn; lia|]).
  lia.
Defined.

(** X20: [formatEntryCode] leaves a valid code as it is, completes its
    four characters to the code, and every valid code is accepted by the
    schema of the entry codes. *)
Theorem formatEntryCode_valid (code : JsString) :
  isValidEntryCode code = true ->
  formatEntryCode code = code
  /\ formatEntryCode (skipn 6 code) = code
  /\ entryCodeSchema code = true.
Proof.
  intros H.
  destruct (valid_code_shape code H)
    as (a & b & c & d & E & Ha & Hb & Hc & Hd).
  subst code.
  destruct (code_char_alphanumeric a Ha) as [Aa [Ua Sa]].
  destruct (code_char_alphanumeric b Hb) as [Ab [Ub Sb]].
  destruct (code_char_alphanumeric c Hc) as [Ac [Uc Sc]].
  destruct (code_char_alphanumeric d Hd) as [Ad [Ud Sd]].
  split; [|split].
  - unfold formatEntryCode. cbn. rewrite Aa, Ab, Ac, Ad. cbn.
    rewrite Ua, Ub, Uc, Ud. reflexivity.
  - unfold formatEntryCode. cbn. rewrite Aa, Ab, Ac, Ad. cbn.
    rewrite Ua, Ub, Uc, Ud.
    destruct ((a =? 67)%N && ((b =? 72)%N && ((c =? 73)%N && ((d =? 76)%N && false)))) eqn:E.
    + repeat rewrite andb_true_iff in E. destruct E as (_ & _ & _ & _ & F). discriminate.
    + reflexivity.
  - unfold entryCodeSchema. cbn. rewrite Sa, Sb, Sc, Sd. reflexivity.
Qed.

Lemma formatEntryCode_valid_witness :
  formatEntryCode (lit "CHILI-7X2M") = lit "CHILI-7X2M"
  /\ formatEntryCode (lit "7X2M") = lit "CHILI-7X2M"
  /\ entryCodeSchema (lit "CHILI-7X2M") = true.
Proof.
  apply (formatEntryCode_valid (lit "CHILI-7X2M")). reflexivity.
Defined.

(** ** Texts *)

Lemma slice_from_start (s : JsString) (e : Z) :
  slice s 0 e
  = firstn (Z.to_nat (if e <? 0 then Z.max (len s + e) 0
                      else Z.min e (len s))) s.
Proof.
  unfold slice. change (0 <? 0) with false. cbv beta iota zeta.
  replace (Z.min 0 (len s)) with 0 by (unfold len; lia).
  rewrite Z.sub_0_r. reflexivity.
Qed.

Lemma len_slice_from_start (s : JsString) (e : Z) :
  len (slice s 0 e)
  = if e <? 0 then Z.max (len s + e) 0 else Z.min e (len s).
Proof.
  rewrite slice_from_start. unfold len. rewrite length_firstn.
  destruct (Z.ltb_spec e 0); lia.
Qed.

Lemma slice_from_start_prefix (s : JsString) (e : Z) :
  exists rest, s = slice s 0 e ++ rest.
Proof.
  rewrite slice_from_start. eexists. symmetry. apply firstn_skipn.
Qed.

(** X21: a text that is not empty and longer than [maxLength] is cut to
    a prefix followed by three dots; the result has [maxLength] units
    when [maxLength] is at least 3, but for a smaller [maxLength] it has
    [max(length + maxLength - 3, 0) + 3] units, more than [maxLength]
    allows. *)
Theorem truncateText_length (text : JsString) (maxLength : Z) :
  text <> [] -> maxLength < len text ->
  let result := truncateText text maxLength in
  (exists kept rest, text = kept ++ rest /\ result = kept ++ lit "...")
  /\ len result
     = if 3 <=? maxLength then maxLength
       else Z.max (len text + maxLength - 3) 0 + 3.
Proof.
  intros Hne Hlong. cbv zeta. unfold truncateText.
  destruct text as [|c text]; [|cbn [nonempty negb]].
  - contradiction.
  - destruct (Z.leb_spec (len (c :: text)) maxLength) as [Hfit|_]; [lia|].
    split.
    + destruct (slice_from_start_prefix (c :: text) (maxLength - 3)) as [rest E].
      eexists; eexists. split; [exact E|reflexivity].
    + unfold len at 1. rewrite length_app. rewrite Nat2Z.inj_add.
      fold (len (slice (c :: text) 0 (maxLength - 3))).
      rewrite len_slice_from_start. change (Z.of_nat (List.length (lit "..."))) with 3.
      destruct (Z.leb_spec 3 maxLength); destruct (Z.ltb_spec (maxLength - 3) 0); lia.
Qed.

Lemma truncateText_length_witness :
  (exists kept rest,
      lit "Three bean chili" = kept ++ rest
      /\ truncateText (lit "Three bean chili") 10 = kept ++ lit "...")
  /\ len (truncateText (lit "Three bean chili") 10) = 10.
Proof.
  apply (truncateText_length (lit "Three bean chili") 10).
  - discriminate.
  - reflexivity.
Defined.

(** *** Tags *)

Lemma closes_In (s : JsString) : closes s = true <-> In (chr ">") s.
Proof.
  unfold closes. rewrite existsb_exists. split.
  - intros [x [Hin Hx]]. apply N.eqb_eq in Hx. subst. exact Hin.
  - intros H. exists (chr ">"). split; [exact H|apply N.eqb_refl].
Qed.

(** What is kept was there, in the same order. *)
Lemma strip_tags_In (b : bool) (s : JsString) (c : N) :
  In c (strip_tags b s) -> In c s.
Proof.
  revert b. induction s as [|a s IH]; intros b H; [destruct b; exact H|].
  cbn [strip_tags] in H. destruct b.
  - destruct (a =? chr ">")%N; right; eapply IH; exact H.
  - destruct ((a =? chr "<")%N && closes s).
    + right. eapply IH. exact H.
    + destruct H as [H|H]; [left; exact H|right; eapply IH; exact H].
Qed.

Lemma strip_tags_no_tag (b : bool) (s pre post : JsString) :
  strip_tags b s = pre ++ chr "<" :: post -> ~ In (chr ">") post.
Proof.
  revert b pre. induction s as [|a s IH]; intros b pre H.
  - destruct b, pre; discriminate.
  - cbn [strip_tags] in H. destruct b.
    + destruct (a =? chr ">")%N; eapply IH; exact H.
    + destruct (N.eqb_spec a (chr "<")) as [E|E]; cbn [andb] in H.
      * destruct (closes s) eqn:Hc; [eapply IH; exact H|].
        destruct pre as [|p pre]; cbn in H.
        -- injection H as _ Hp. subst post. intros Hin.
           apply strip_tags_In in Hin. apply closes_In in Hin.
           rewrite Hc in Hin. discriminate.
        -- injection H as _ H. eapply IH. exact H.
      * destruct pre as [|p pre]; cbn in H.
        -- injection H as H _. exfalso. apply E. exact H.
        -- injection H as _ H. eapply IH. exact H.
Qed.

(** Where no [<] is followed by a [>], nothing is removed. *)
Lemma strip_tags_nothing (s : JsString) :
  (forall pre post, s = pre ++ chr "<" :: post -> ~ In (chr ">") post) ->
  strip_tags false s = s.
Proof.
  induction s as [|a s IH]; intros H; [reflexivity|].
  cbn [strip_tags].
  destruct (N.eqb_spec a (chr "<")) as [E|E]; cbn [andb].
  - destruct (closes s) eqn:Hc.
    + exfalso. apply (H [] s); [subst a; reflexivity|]. apply closes_In. exact Hc.
    + f_equal. apply IH. intros pre post Hs. apply (H (a :: pre) post).
      rewrite Hs. reflexivity.
  - f_equal. apply IH. intros pre post Hs. apply (H (a :: pre) post).
    rewrite Hs. reflexivity.
Qed.

(** X22: after [stripHtmlTags] no [<] is followed by a [>]: no tag is
    left, also none put together from the pieces around a removed tag,
    and a second pass removes nothing. *)
Theorem stripHtmlTags_leaves_no_tag (html : JsString) :
  (forall pre post,
      stripHtmlTags html = pre ++ chr "<" :: post -> ~ In (chr ">") post)
  /\ stripHtmlTags (stripHtmlTags html) = stripHtmlTags html.
Proof.
  assert (H : forall pre post,
      stripHtmlTags html = pre ++ chr "<" :: post -> ~ In (chr ">") post).
  { unfold stripHtmlTags. destruct html as [|c html]; cbn [nonempty negb].
    - intros [|] post H; discriminate.
    - intros pre post. apply strip_tags_no_tag. }
  split; [exact H|].
  unfold stripHtmlTags at 1.
  destruct (stripHtmlTags html) as [|c s] eqn:E; [reflexivity|].
  cbn [nonempty negb]. apply strip_tags_nothing. exact H.
Qed.

(** *** File names *)

Lemma firstn_In {A : Type} (n : nat) (l : list A) (x : A) :
  In x (firstn n l) -> In x l.
Proof.
  revert l. induction n as [|n IH]; intros [|a l] H; try contradiction.
  destruct H as [H|H]; [left; exact H|right; apply IH; exact H].
Qed.

Lemma skipn_In {A : Type} (n : nat) (l : list A) (x : A) :
  In x (skipn n l) -> In x l.
Proof.
  revert l. induction n as [|n IH]; intros [|a l] H; try exact H.
  right. apply IH. exact H.
Qed.

Lemma slice_In (s : JsString) (a b : Z) (c : N) :
  In c (slice s a b) -> In c s.
Proof.
  unfold slice. intros H. apply firstn_In in H.
  eapply skipn_In. exact H.
Qed.

Lemma len_slice_bound (s : JsString) (e : Z) :
  0 <= e -> len (slice s 0 e) <= e.
Proof.
  intros He. unfold slice, len. rewrite length_firstn.
  destruct (Z.ltb_spec e 0); [lia|].
  change (0 <? 0) with false. cbv beta iota zeta. lia.
Qed.

(** X23: the name that [sanitizeFilename] returns is never empty, has at
    most 255 units and holds no slash, no backslash, none of the
    characters [<>:|?*], no double quote and no control unit. *)
Theorem sanitizeFilename_safe (filename : JsString) :
  let name := sanitizeFilename filename in
  name <> [] /\ len name <= 255
  /\ forall c, In c name -> is_separator c = false /\ is_dangerous c = false.
Proof.
  cbv zeta.
  assert (Hfile : lit "file" <> [] /\ len (lit "file") <= 255
          /\ forall c, In c (lit "file") ->
                       is_separator c = false /\ is_dangerous c = false).
  { split; [discriminate|]. split; [cbn; lia|].
    intros c Hc. cbn in Hc.
    decompose [or] Hc; subst; try contradiction; split; reflexivity. }
  unfold sanitizeFilename.
  destruct (nonempty filename); cbn [negb]; [|exact Hfile].
  match goal with |- context [nonempty ?s] => set (cleaned := s) end.
  destruct cleaned as [|c0 cs] eqn:E; cbn [nonempty]; [exact Hfile|].
  rewrite <- E. split; [rewrite E; discriminate|].
  split; [apply len_slice_bound; lia|].
  intros c Hc. subst cleaned. apply slice_In in Hc.
  apply filter_In in Hc. destruct Hc as [Hc Hd].
  apply filter_In in Hc. destruct Hc as [_ Hs].
  apply negb_true_iff in Hd, Hs. split; assumption.
Qed.

Lemma remove_dot_pairs_step (a b : N) (s : JsString) :
  remove_dot_pairs (a :: b :: s)
  = if (a =? chr ".")%N && (b =? chr ".")%N then remove_dot_pairs s
    else a :: remove_dot_pairs (b :: s).
Proof. reflexivity. Qed.

Lemma remove_dot_pairs_no_dots (a : N) (s : JsString) :
  ~ In (chr ".") s -> remove_dot_pairs (a :: s) = a :: s.
Proof.
  revert a. induction s as [|b s IH]; intros a H; [reflexivity|].
  rewrite remove_dot_pairs_step.
  destruct (N.eqb_spec b (chr ".")) as [E|E].
  - exfalso. apply H. left. exact E.
  - rewrite andb_false_r. f_equal.
    apply IH. intros Hin. apply H. right. exact Hin.
Qed.

(** X24: the steps of [sanitizeFilename] run once, in order: a pair of
    dots that only forms when a slash between two dots is removed stays
    in the name. *)
Theorem sanitizeFilename_keeps_late_dot_pairs (rest : JsString) :
  (forall c, In c rest ->
     c <> chr "." /\ is_separator c = false /\ is_dangerous c = false) ->
  len rest <= 253 ->
  sanitizeFilename (lit "./." ++ rest) = lit ".." ++ rest.
Proof.
  intros Hrest Hlen. unfold sanitizeFilename.
  cbn [lit list_ascii_of_string map app nonempty negb].
  assert (Hdots : ~ In (chr ".") rest).
  { intros Hin. destruct (Hrest _ Hin) as [H _]. apply H. reflexivity. }
  assert (Hpairs : remove_dot_pairs (chr "." :: chr "/" :: chr "." :: rest)
                   = chr "." :: chr "/" :: chr "." :: rest).
  { rewrite !remove_dot_pairs_step.
    change (chr "/" =? chr ".")%N with false.
    change (chr "." =? chr ".")%N with true. cbn [andb].
    rewrite (remove_dot_pairs_no_dots (chr ".") rest Hdots). reflexivity. }
  rewrite Hpairs. cbn [filter]. 
  change (negb (is_separator (chr "."))) with true.
  change (negb (is_separator (chr "/"))) with false.
  cbv beta iota. cbn [filter].
  change (negb (is_dangerous (chr "."))) with true. cbv beta iota.
  assert (Hf : forall p : N -> bool,
             (forall c, In c rest -> p c = false) ->
             filter (fun c => negb (p c)) rest = rest).
  { intros p Hp. clear - Hp. induction rest as [|c r IH]; [reflexivity|].
    cbn. rewrite (Hp c) by (left; reflexivity). cbn. f_equal.
    apply IH. intros c' Hc'. apply Hp. right. exact Hc'. }
  rewrite (Hf is_separator) by (intros c Hc; apply Hrest; exact Hc).
  rewrite (Hf is_dangerous) by (intros c Hc; apply Hrest; exact Hc).
  unfold slice. change (0 <? 0) with false. change (255 <? 0) with false.
  cbv beta iota zeta.
  set (name := chr "." :: chr "." :: rest).
  assert (Hn : len name = len rest + 2).
  { unfold len, name. cbn [List.length]. lia. }
  assert (H0 : 0 <= len rest) by (unfold len; lia).
  replace (Z.min 0 (len name)) with 0 by lia.
  replace (Z.min 255 (len name)) with (len name) by lia.
  cbn [Z.to_nat skipn]. rewrite Z.sub_0_r.
  unfold len. rewrite Nat2Z.id. rewrite firstn_all. reflexivity.
Qed.

Lemma sanitizeFilename_keeps_late_dot_pairs_witness :
  sanitizeFilename (lit "./.env") = lit "..env".
Proof.
  apply (sanitizeFilename_keeps_late_dot_pairs (lit "env")).
  - intros c [<-|[<-|[<-|[]]]]; repeat split; discriminate.
  - cbn. lia.
Defined.

(** *** Ingredients *)

Lemma split_items (sep : N) (s : JsString) :
  forall item, In item (split sep s) -> ~ In sep item.
Proof.
  induction s as [|c s IH]; intros item H.
  - cbn in H. destruct H as [H|[]]. subst. intros [].
  - cbn [split] in H. destruct (N.eqb_spec c sep) as [E|E].
    + destruct H as [H|H]; [subst; intros []|apply IH; exact H].
    + destruct (split sep s) as [|i items] eqn:Es.
      * destruct H as [H|[]]. subst. intros [H|[]]. congruence.
      * destruct H as [H|H].
        -- subst item. intros [H|H]; [congruence|].
           apply (IH i); [left; reflexivity|exact H].
        -- apply IH. right. exact H.
Qed.

Lemma trimStart_In (s : JsString) (c : N) : In c (trimStart s) -> In c s.
Proof.
  induction s as [|a s IH]; intros H; [exact H|].
  cbn in H. destruct (is_white_space a); [right; apply IH; exact H|exact H].
Qed.

Lemma trim_In (s : JsString) (c : N) : In c (trim s) -> In c s.
Proof.
  unfold trim, trimEnd. intros H.
  apply in_rev in H. apply trimStart_In in H. apply in_rev in H.
  apply trimStart_In in H. exact H.
Qed.

Lemma trimStart_idem (s : JsString) : trimStart (trimStart s) = trimStart s.
Proof.
  induction s as [|a s IH]; [reflexivity|].
  cbn. destruct (is_white_space a) eqn:E; [exact IH|].
  cbn. rewrite E. reflexivity.
Qed.

Lemma trimStart_snoc (u : JsString) (c : N) :
  is_white_space c = false -> trimStart (u ++ [c]) = trimStart u ++ [c].
Proof.
  intros Hc. induction u as [|a u IH]; cbn.
  - rewrite Hc. reflexivity.
  - destruct (is_white_space a); [exact IH|reflexivity].
Qed.

Lemma trimEnd_cons (c : N) (t : JsString) :
  is_white_space c = false -> trimEnd (c :: t) = c :: trimEnd t.
Proof.
  intros Hc. unfold trimEnd. cbn [rev].
  rewrite trimStart_snoc by exact Hc.
  rewrite rev_app_distr. reflexivity.
Qed.

Lemma trimEnd_idem (s : JsString) : trimEnd (trimEnd s) = trimEnd s.
Proof.
  unfold trimEnd. rewrite rev_involutive, trimStart_idem. reflexivity.
Qed.

Lemma trimStart_clean (s : JsString) :
  match trimStart s with
  | [] => True
  | c :: _ => is_white_space c = false
  end.
Proof.
  induction s as [|a s IH]; [exact I|].
  cbn. destruct (is_white_space a) eqn:E; [exact IH|exact E].
Qed.

Lemma trim_idem (s : JsString) : trim (trim s) = trim s.
Proof.
  unfold trim. pose proof (trimStart_clean s) as H.
  destruct (trimStart s) as [|c t]; [reflexivity|].
  rewrite (trimEnd_cons c t H). cbn [trimStart]. rewrite H.
  rewrite (trimEnd_cons c _ H). rewrite trimEnd_idem. reflexivity.
Qed.

(** X25: the array that [submitChiliEntry] stores for the ingredients
    (and the allergens) holds no empty text, no text with a comma and no
    text with white space at either end. *)
Theorem ingredient_items_clean (text item : JsString) :
  In item (ingredient_items text) ->
  item <> [] /\ ~ In (chr ",") item /\ trim item = item.
Proof.
  unfold ingredient_items. destruct (nonempty text); [|intros []].
  intros H. apply filter_In in H. destruct H as [H Hne].
  apply in_map_iff in H. destruct H as [raw [E Hraw]]. subst item.
  split; [destruct (trim raw); [discriminate|discriminate]|].
  split.
  - intros Hin. apply trim_In in Hin.
    exact (split_items _ _ _ Hraw Hin).
  - apply trim_idem.
Qed.

Lemma ingredient_items_clean_witness :
  lit "green chile" <> []
  /\ ~ In (chr ",") (lit "green chile")
  /\ trim (lit "green chile") = lit "green chile".
Proof.
  apply (ingredient_items_clean (lit " beans, ,green chile ")).
  right. left. reflexivity.
Defined.

Lemma split_no_sep (sep : N) (s : JsString) :
  ~ In sep s -> split sep s = [s].
Proof.
  induction s as [|c s IH]; intros H; [reflexivity|].
  cbn [split]. destruct (N.eqb_spec c sep) as [E|E].
  - exfalso. apply H. left. exact E.
  - rewrite IH; [reflexivity|]. intros Hin. apply H. right. exact Hin.
Qed.

Lemma split_app_sep (sep : N) (x y : JsString) :
  ~ In sep x -> split sep (x ++ sep :: y) = x :: split sep y.
Proof.
  induction x as [|c x IH]; intros H.
  - cbn. rewrite N.eqb_refl. reflexivity.
  - cbn [app split]. destruct (N.eqb_spec c sep) as [E|E].
    + exfalso. apply H. left. exact E.
    + rewrite IH; [reflexivity|]. intros Hin. apply H. right. exact Hin.
Qed.

Lemma split_join (items : list JsString) :
  (forall item, In item items -> ~ In (chr ",") item) ->
  forall (pad x : JsString), ~ In (chr ",") (pad ++ x) ->
  split (chr ",") (pad ++ join (lit ", ") (x :: items))
  = (pad ++ x) :: map (fun y => chr " " :: y) items.
Proof.
  induction items as [|y items IH]; intros Hitems pad x Hx.
  - cbn [join map]. apply split_no_sep. exact Hx.
  - change (join (lit ", ") (x :: y :: items))
      with (x ++ chr "," :: ([chr " "] ++ join (lit ", ") (y :: items))).
    rewrite app_assoc. rewrite split_app_sep by exact Hx.
    rewrite IH.
    + reflexivity.
    + intros item Hin. apply Hitems. right. exact Hin.
    + cbn [app]. intros [H|H]; [discriminate H|].
      exact (Hitems y (or_introl eq_refl) H).
Qed.

(** X26: ingredients that are clean (not empty, without comma, without
    white space at the ends) come back unchanged when the text that
    [formatIngredientsList] makes of them is submitted. *)
Theorem ingredients_round_trip (items : list JsString) :
  (forall item, In item items ->
     item <> [] /\ ~ In (chr ",") item /\ trim item = item) ->
  ingredient_items (formatIngredientsList items) = items.
Proof.
  intros Hitems. unfold formatIngredientsList.
  assert (Hall : filter nonempty items = items).
  { clear - Hitems. induction items as [|x items IH]; [reflexivity|].
    cbn. destruct x as [|c x].
    - exfalso. destruct (Hitems [] (or_introl eq_refl)) as [H _]. apply H. reflexivity.
    - cbn. f_equal. apply IH. intros item Hin. apply Hitems. right. exact Hin. }
  rewrite Hall. destruct items as [|x items]; [reflexivity|].
  unfold ingredient_items.
  assert (Hne : nonempty (join (lit ", ") (x :: items)) = true).
  { destruct (Hitems x (or_introl eq_refl)) as [Hx _].
    destruct x as [|c x]; [contradiction|]. destruct items; reflexivity. }
  rewrite Hne.
  pose proof (split_join items) as Hs.
  specialize (Hs (fun item Hin => proj1 (proj2 (Hitems item (or_intror Hin)))) [] x).
  cbn [app] in Hs. rewrite Hs
    by (exact (proj1 (proj2 (Hitems x (or_introl eq_refl))))).
  cbn [map filter].
  destruct (Hitems x (or_introl eq_refl)) as [Hx [_ Tx]].
  rewrite Tx. destruct x as [|c x]; [contradiction|]. cbn [nonempty]. f_equal.
  assert (Hrest : forall item, In item items ->
            item <> [] /\ ~ In (chr ",") item /\ trim item = item).
  { intros item Hin. apply Hitems. right. exact Hin. }
  clear - Hrest. induction items as [|y items IH]; [reflexivity|].
  cbn [map filter].
  destruct (Hrest y (or_introl eq_refl)) as [Hy [_ Ty]].
  assert (Tpad : trim (chr " " :: y) = y).
  { unfold trim in *. cbn [trimStart].
    change (is_white_space (chr " ")) with true. cbv beta iota. exact Ty. }
  rewrite Tpad. destruct y as [|c y]; [contradiction|]. cbn [nonempty].
  f_equal. apply IH. intros item Hin. apply Hrest. right. exact Hin.
Qed.

Lemma ingredients_round_trip_witness :
  ingredient_items
    (formatIngredientsList [lit "beans"; lit "green chile"])
  = [lit "beans"; lit "green chile"].
Proof.
  apply (ingredients_round_trip [lit "beans"; lit "green chile"]).
  intros item [<-|[<-|[]]]; (split; [discriminate|]);
    (split; [|reflexivity]); cbn; intuition discriminate.
Defined.
